(** * Envelope encryption of stored credentials ([crypto_utils.py])

    A shallow embedding of [crypto_utils.py] together with the library
    functions it calls: [str.encode]/[bytes.decode] (UTF-8),
    [base64.b64encode]/[base64.b64decode], [secrets.token_bytes],
    [PBKDF2HMAC] over SHA-256 and AES-256 in GCM mode.

    Python values are modelled as follows:
    - [bytes] is a list of [Byte.byte];
    - [str] is the list of its code points (numbers of type [N]); a
      Python [str] may hold surrogate code points, which UTF-8 refuses;
    - an exception is its class, its message and its [__cause__];
    - a call that may raise returns a [result];
    - [secrets.token_bytes] reads from an explicit entropy source that is
      threaded through the calls that draw from it.
    Calls to [logger] are not modelled. *)

From Stdlib Require Import Strings.String Strings.Ascii Strings.Byte.
From Stdlib Require Import List NArith ZArith Lia Bool Arith.
Import ListNotations.

Local Open Scope N_scope.

(* ===================================================================== *)
(** ** Bytes *)
(* ===================================================================== *)

Definition byte : Type := Byte.byte.
Definition bytes := list byte.

(** The value of a byte and the byte of a number (reduced modulo 256). *)
Definition byte_of_N (n : N) : byte :=
  match Byte.of_N (n mod 256) with
  | Some b => b
  | None => Byte.x00
  end.

Definition N_of_byte (b : byte) : N := Byte.to_N b.

Definition byte_xor (a b : byte) : byte :=
  byte_of_N (N.lxor (N_of_byte a) (N_of_byte b)).

(** [bytes(x ^ y for x, y in zip(data, pad))]. *)
Fixpoint xor_bytes (data pad : bytes) : bytes :=
  match data, pad with
  | d :: data', p :: pad' => byte_xor d p :: xor_bytes data' pad'
  | _, _ => []
  end.

(** Big-endian number of a byte string, and the [len] low-order bytes of a
    number in big-endian order. *)
Definition N_of_bytes_be (bs : bytes) : N :=
  fold_left (fun acc b => acc * 256 + N_of_byte b) bs 0.

Fixpoint bytes_of_N_be (len : nat) (x : N) : bytes :=
  match len with
  | O => []
  | S len' => byte_of_N (N.shiftr x (8 * N.of_nat len')) :: bytes_of_N_be len' x
  end.

Definition zeros (n : nat) : bytes := repeat Byte.x00 n.

(** [bs[i:i+n]] *)
Definition slice (bs : bytes) (i n : nat) : bytes := firstn n (skipn i bs).

(** Decidable equality of byte strings ([a == b] on [bytes]). *)
Definition bytes_eqb (a b : bytes) : bool :=
  if list_eq_dec Byte.byte_eq_dec a b then true else false.

(* ===================================================================== *)
(** ** Python strings, exceptions and results *)
(* ===================================================================== *)

(** A [str] is the sequence of its code points. *)
Definition str := list N.

(** The [str] whose characters are those of a literal. *)
Definition str_of_string (s : string) : str :=
  map N_of_ascii (list_ascii_of_string s).

(** The exception classes that the module and its library calls raise.
    [UnicodeEncodeError], [UnicodeDecodeError] and [binascii.Error] are
    subclasses of [ValueError]; [InvalidTag] and [RuntimeError] are not. *)
Inductive exn_class : Type :=
| ValueError
| RuntimeError
| UnicodeEncodeError
| UnicodeDecodeError
| BinasciiError
| InvalidTag.

(** [isinstance(e, ValueError)] *)
Definition is_ValueError (c : exn_class) : bool :=
  match c with
  | ValueError | UnicodeEncodeError | UnicodeDecodeError | BinasciiError => true
  | RuntimeError | InvalidTag => false
  end.

(** An exception object: class, message ([str(e)]) and [__cause__] as set
    by [raise ... from e]. *)
#[warnings="-register-all"]
Inductive exn : Type :=
| Exn (cls : exn_class) (msg : string) (cause : option exn).

Definition exn_cls (e : exn) : exn_class := let (c, _, _) := e in c.
Definition exn_msg (e : exn) : string := let (_, m, _) := e in m.
Definition exn_cause (e : exn) : option exn := let (_, _, c) := e in c.

(** What an [except] clause and the text of the exception show of it. *)
Definition signal (e : exn) : exn_class * string := (exn_cls e, exn_msg e).

Inductive result (A : Type) : Type :=
| Ok (a : A)
| Raise (e : exn).
Arguments Ok {A} a.
Arguments Raise {A} e.

Definition bind {A B : Type} (r : result A) (k : A -> result B) : result B :=
  match r with
  | Ok a => k a
  | Raise e => Raise e
  end.

Declare Scope py_scope.
Delimit Scope py_scope with py.
Notation "x <- r ;; k" := (bind r (fun x => k))
  (at level 61, r at next level, right associativity) : py_scope.

(** [try: body  except Exception as e: raise cls(msg) from e] *)
Definition except_Exception {A} (cls : exn_class) (msg : string)
    (body : result A) : result A :=
  match body with
  | Ok a => Ok a
  | Raise e => Raise (Exn cls msg (Some e))
  end.

(** [try: body
     except ValueError as e: raise ValueError(vmsg) from e
     except Exception as e:  raise RuntimeError(rmsg) from e] *)
Definition except_ValueError_Exception {A} (vmsg rmsg : string)
    (body : result A) : result A :=
  match body with
  | Ok a => Ok a
  | Raise e =>
      if is_ValueError (exn_cls e)
      then Raise (Exn ValueError vmsg (Some e))
      else Raise (Exn RuntimeError rmsg (Some e))
  end.

(* ===================================================================== *)
(** ** UTF-8: [str.encode('utf-8')] and [bytes.decode('utf-8')] *)
(* ===================================================================== *)

Module Utf8.

(** The bytes of one code point; surrogates (U+D800..U+DFFF) have none. *)
Definition encode_char (c : N) : option bytes :=
  if c <? 0x80 then Some [byte_of_N c]
  else if c <? 0x800 then
    Some [byte_of_N (0xC0 + c / 64); byte_of_N (0x80 + c mod 64)]
  else if c <? 0x10000 then
    if (0xD800 <=? c) && (c <? 0xE000) then None
    else Some [byte_of_N (0xE0 + c / 4096);
               byte_of_N (0x80 + (c / 64) mod 64);
               byte_of_N (0x80 + c mod 64)]
  else if c <? 0x110000 then
    Some [byte_of_N (0xF0 + c / 262144);
          byte_of_N (0x80 + (c / 4096) mod 64);
          byte_of_N (0x80 + (c / 64) mod 64);
          byte_of_N (0x80 + c mod 64)]
  else None.

Fixpoint encode_chars (s : str) : option bytes :=
  match s with
  | [] => Some []
  | c :: s' =>
      match encode_char c, encode_chars s' with
      | Some b, Some bs => Some (b ++ bs)
      | _, _ => None
      end
  end.

(** A continuation byte, 10xxxxxx. *)
Definition is_cont (n : N) : bool := (0x80 <=? n) && (n <? 0xC0).

(** Strict decoding: truncated and overlong sequences, surrogates and
    values above U+10FFFF are refused. *)
Fixpoint decode_chars (bs : bytes) : option str :=
  match bs with
  | [] => Some []
  | b0 :: r0 =>
      let n0 := N_of_byte b0 in
      if n0 <? 0x80 then option_map (cons n0) (decode_chars r0)
      else if n0 <? 0xC0 then None
      else if n0 <? 0xE0 then
        match r0 with
        | b1 :: r1 =>
            let n1 := N_of_byte b1 in
            let c := (n0 - 0xC0) * 64 + (n1 - 0x80) in
            if is_cont n1 && (0x80 <=? c)
            then option_map (cons c) (decode_chars r1)
            else None
        | _ => None
        end
      else if n0 <? 0xF0 then
        match r0 with
        | b1 :: b2 :: r2 =>
            let n1 := N_of_byte b1 in
            let n2 := N_of_byte b2 in
            let c := (n0 - 0xE0) * 4096 + (n1 - 0x80) * 64 + (n2 - 0x80) in
            if is_cont n1 && is_cont n2 && (0x800 <=? c)
               && negb ((0xD800 <=? c) && (c <? 0xE000))
            then option_map (cons c) (decode_chars r2)
            else None
        | _ => None
        end
      else if n0 <? 0xF8 then
        match r0 with
        | b1 :: b2 :: b3 :: r3 =>
            let n1 := N_of_byte b1 in
            let n2 := N_of_byte b2 in
            let n3 := N_of_byte b3 in
            let c := (n0 - 0xF0) * 262144 + (n1 - 0x80) * 4096
                     + (n2 - 0x80) * 64 + (n3 - 0x80) in
            if is_cont n1 && is_cont n2 && is_cont n3
               && (0x10000 <=? c) && (c <? 0x110000)
            then option_map (cons c) (decode_chars r3)
            else None
        | _ => None
        end
      else None
  end.

(** [s.encode('utf-8')] *)
Definition encode (s : str) : result bytes :=
  match encode_chars s with
  | Some bs => Ok bs
  | None => Raise (Exn UnicodeEncodeError "'utf-8' codec can't encode character" None)
  end.

(** [bs.decode('utf-8')] *)
Definition decode (bs : bytes) : result str :=
  match decode_chars bs with
  | Some s => Ok s
  | None => Raise (Exn UnicodeDecodeError "'utf-8' codec can't decode byte" None)
  end.

End Utf8.

(* ===================================================================== *)
(** ** Base64: [base64.b64encode] and [base64.b64decode] *)
(* ===================================================================== *)

Module Base64.

Definition alphabet : string :=
  "ABCDEFGHIJKLMNOPQRSTUVWXYZabcdefghijklmnopqrstuvwxyz0123456789+/".

(** [table_b2a_base64[n]] *)
Definition b2a (n : N) : byte :=
  match String.get (N.to_nat n) alphabet with
  | Some a => byte_of_N (N_of_ascii a)
  | None => Byte.x00
  end.

(** [table_a2b_base64[ch]]: the value of an alphabet character, [None]
    for any other byte. *)
Definition a2b (ch : byte) : option N :=
  let n := N_of_byte ch in
  if (65 <=? n) && (n <=? 90) then Some (n - 65)
  else if (97 <=? n) && (n <=? 122) then Some (n - 71)
  else if (48 <=? n) && (n <=? 57) then Some (n + 4)
  else if n =? 43 then Some 62
  else if n =? 47 then Some 63
  else None.

(** The padding character, [=]. *)
Definition pad : byte := Byte.x3d.
Definition is_pad (ch : byte) : bool := N_of_byte ch =? 61.

(** [binascii.b2a_base64(s, newline=False)] *)
Fixpoint b2a_base64 (bs : bytes) : bytes :=
  match bs with
  | [] => []
  | [x] =>
      let a := N_of_byte x in
      [b2a (a / 4); b2a ((a mod 4) * 16); pad; pad]
  | [x; y] =>
      let a := N_of_byte x in
      let b := N_of_byte y in
      [b2a (a / 4); b2a ((a mod 4) * 16 + b / 16); b2a ((b mod 16) * 4); pad]
  | x :: y :: z :: rest =>
      let a := N_of_byte x in
      let b := N_of_byte y in
      let c := N_of_byte z in
      b2a (a / 4) :: b2a ((a mod 4) * 16 + b / 16)
        :: b2a ((b mod 16) * 4 + c / 64) :: b2a (c mod 64)
        :: b2a_base64 rest
  end.

(** The loop of [binascii.a2b_base64] (CPython 3.11) with [strict_mode]
    off; the messages of its errors are shortened. [quad_pos]
    is the position in the current group of four characters, [leftchar]
    the bits carried over from the previous character and [pads] the
    number of padding characters seen since the last data character.
    Bytes outside the alphabet are skipped; padding that completes a
    group ends the decoding; input that ends inside a group is refused. *)
Fixpoint a2b_loop (s : bytes) (quad_pos : nat) (leftchar : N) (pads : nat)
  : result bytes :=
  match s with
  | [] =>
      match quad_pos with
      | O => Ok []
      | S O => Raise (Exn BinasciiError "Invalid base64-encoded string" None)
      | _ => Raise (Exn BinasciiError "Incorrect padding" None)
      end
  | ch :: rest =>
      if is_pad ch then
        if (2 <=? quad_pos)%nat then
          if (4 <=? quad_pos + S pads)%nat then Ok []
          else a2b_loop rest quad_pos leftchar (S pads)
        else a2b_loop rest quad_pos leftchar pads
      else
        match a2b ch with
        | None => a2b_loop rest quad_pos leftchar pads
        | Some v =>
            match quad_pos with
            | O => a2b_loop rest 1 v 0
            | S O =>
                match a2b_loop rest 2 (v mod 16) 0 with
                | Ok out => Ok (byte_of_N (leftchar * 4 + v / 16) :: out)
                | Raise e => Raise e
                end
            | S (S O) =>
                match a2b_loop rest 3 (v mod 4) 0 with
                | Ok out => Ok (byte_of_N (leftchar * 16 + v / 4) :: out)
                | Raise e => Raise e
                end
            | _ =>
                match a2b_loop rest 0 0 0 with
                | Ok out => Ok (byte_of_N (leftchar * 64 + v) :: out)
                | Raise e => Raise e
                end
            end
        end
  end.

(** [base64.b64encode(s)] *)
Definition b64encode (bs : bytes) : bytes := b2a_base64 bs.

(** [base64.b64decode(s)] with the default [validate=False]. *)
Definition b64decode (s : bytes) : result bytes := a2b_loop s 0 0 0.

End Base64.

(* ===================================================================== *)
(** ** SHA-256, HMAC and PBKDF2: [PBKDF2HMAC(algorithm=hashes.SHA256(), ...)] *)
(* ===================================================================== *)

Module Sha256.

Definition mask32 : N := 0xFFFFFFFF.
Definition add32 (a b : N) : N := N.land (a + b) mask32.
Definition rotr (n x : N) : N :=
  N.land (N.lor (N.shiftr x n) (N.shiftl x (32 - n))) mask32.
Definition not32 (x : N) : N := N.lxor x mask32.

Definition Ch (x y z : N) : N := N.lxor (N.land x y) (N.land (not32 x) z).
Definition Maj (x y z : N) : N :=
  N.lxor (N.lxor (N.land x y) (N.land x z)) (N.land y z).
Definition Sigma0 (x : N) : N := N.lxor (N.lxor (rotr 2 x) (rotr 13 x)) (rotr 22 x).
Definition Sigma1 (x : N) : N := N.lxor (N.lxor (rotr 6 x) (rotr 11 x)) (rotr 25 x).
Definition sigma0 (x : N) : N := N.lxor (N.lxor (rotr 7 x) (rotr 18 x)) (N.shiftr x 3).
Definition sigma1 (x : N) : N := N.lxor (N.lxor (rotr 17 x) (rotr 19 x)) (N.shiftr x 10).

(** The first sixty-four prime numbers. *)
Definition is_prime (n : N) : bool :=
  (2 <=? n) && forallb (fun d => negb (n mod N.of_nat d =? 0))
                       (seq 2 (N.to_nat n - 2)).

Definition primes : list N :=
  firstn 64 (filter is_prime (map N.of_nat (seq 2 310))).

(** The largest [r + x], [x] below [2 ^ bits], whose cube is at most [n]. *)
Fixpoint cube_root (bits : nat) (n r : N) : N :=
  match bits with
  | O => r
  | S b =>
      let r' := r + N.shiftl 1 (N.of_nat b) in
      cube_root b n (if r' * r' * r' <=? n then r' else r)
  end.

(** The round constants: the first thirty-two bits of the fractional parts
    of the cube roots of the primes. *)
Definition K : list N :=
  map (fun p => N.land (cube_root 36 (N.shiftl p 96) 0) mask32) primes.

(** The eight working variables, also the hash value between blocks. *)
Definition state : Type := (N * N * N * N * N * N * N * N)%type.

(** The initial hash value: the first thirty-two bits of the fractional
    parts of the square roots of the first eight primes. *)
Definition H0 : state :=
  match map (fun p => N.land (N.sqrt (N.shiftl p 64)) mask32) (firstn 8 primes) with
  | [a; b; c; d; e; f; g; h] => (a, b, c, d, e, f, g, h)
  | _ => (0, 0, 0, 0, 0, 0, 0, 0)
  end.

(** The sixteen big-endian words of a 64-byte block. *)
Fixpoint words_of_bytes (n : nat) (bs : bytes) : list N :=
  match n with
  | O => []
  | S n' => N_of_bytes_be (firstn 4 bs) :: words_of_bytes n' (skipn 4 bs)
  end.

(** The message schedule, kept newest first: [w] holds W[t-1], W[t-2], ...
    and [n] further words are added. *)
Fixpoint schedule (n : nat) (w : list N) : list N :=
  match n with
  | O => w
  | S n' =>
      let wt := add32 (add32 (sigma1 (nth 1 w 0)) (nth 6 w 0))
                      (add32 (sigma0 (nth 14 w 0)) (nth 15 w 0)) in
      schedule n' (wt :: w)
  end.

Definition round (s : state) (kw : N * N) : state :=
  let '(a, b, c, d, e, f, g, h) := s in
  let (k, w) := kw in
  let t1 := add32 (add32 (add32 h (Sigma1 e)) (add32 (Ch e f g) k)) w in
  let t2 := add32 (Sigma0 a) (Maj a b c) in
  (add32 t1 t2, a, b, c, add32 d t1, e, f, g).

Definition compress (s : state) (block : bytes) : state :=
  let w := rev (schedule 48 (rev (words_of_bytes 16 block))) in
  let '(a, b, c, d, e, f, g, h) := fold_left round (combine K w) s in
  let '(a0, b0, c0, d0, e0, f0, g0, h0) := s in
  (add32 a0 a, add32 b0 b, add32 c0 c, add32 d0 d,
   add32 e0 e, add32 f0 f, add32 g0 g, add32 h0 h).

(** Padding: a one bit, zeros up to 56 modulo 64, the bit length on 64 bits. *)
Definition pad (msg : bytes) : bytes :=
  let len := length msg in
  let z := ((64 - (len + 9) mod 64) mod 64)%nat in
  msg ++ [Byte.x80] ++ zeros z ++ bytes_of_N_be 8 (8 * N.of_nat len).

Fixpoint blocks (n : nat) (s : state) (bs : bytes) : state :=
  match n with
  | O => s
  | S n' => blocks n' (compress s (firstn 64 bs)) (skipn 64 bs)
  end.

Definition digest_of_state (s : state) : bytes :=
  let '(a, b, c, d, e, f, g, h) := s in
  bytes_of_N_be 4 a ++ bytes_of_N_be 4 b ++ bytes_of_N_be 4 c
    ++ bytes_of_N_be 4 d ++ bytes_of_N_be 4 e ++ bytes_of_N_be 4 f
    ++ bytes_of_N_be 4 g ++ bytes_of_N_be 4 h.

Definition sha256 (msg : bytes) : bytes :=
  let p := pad msg in
  digest_of_state (blocks (length p / 64) H0 p).

Definition digest_size : nat := 32.
Definition block_size : nat := 64.

End Sha256.

Module Hmac.

(** The key as HMAC uses it: hashed when longer than a block, then filled
    with zero bytes up to the block size. *)
Definition key_block (key : bytes) : bytes :=
  let k := if (Sha256.block_size <? length key)%nat then Sha256.sha256 key else key in
  k ++ zeros (Sha256.block_size - length k).

Definition ipad : bytes := repeat Byte.x36 Sha256.block_size.
Definition opad : bytes := repeat Byte.x5c Sha256.block_size.

Definition hmac_sha256 (key msg : bytes) : bytes :=
  let kb := key_block key in
  Sha256.sha256 (xor_bytes kb opad ++ Sha256.sha256 (xor_bytes kb ipad ++ msg)).

End Hmac.

Module Pbkdf2.

(** One further iteration: from the last block U_j and the running xor
    U_1 xor ... xor U_j to U_(j+1) and the next running xor. *)
Definition step (password : bytes) (st : bytes * bytes) : bytes * bytes :=
  let (u, acc) := st in
  let u' := Hmac.hmac_sha256 password u in
  (u', xor_bytes acc u').

(** The block T_i = U_1 xor ... xor U_c of the derived key. *)
Definition F (password salt : bytes) (iterations : N) (i : N) : bytes :=
  let u1 := Hmac.hmac_sha256 password (salt ++ bytes_of_N_be 4 i) in
  snd (N.iter (iterations - 1) (step password) (u1, u1)).

Fixpoint T (password salt : bytes) (iterations : N) (nblocks : nat) (i : N)
  : bytes :=
  match nblocks with
  | O => []
  | S n' => F password salt iterations i ++ T password salt iterations n' (N.succ i)
  end.

(** [PBKDF2HMAC(SHA256(), length, salt, iterations).derive(password)] *)
Definition derive (password salt : bytes) (iterations : N) (length : nat)
  : bytes :=
  let nblocks := ((length + Sha256.digest_size - 1) / Sha256.digest_size)%nat in
  firstn length (T password salt iterations nblocks 1).

End Pbkdf2.

(* ===================================================================== *)
(** ** AES-256 and the GCM mode: [Cipher(algorithms.AES(key), modes.GCM(...))] *)
(* ===================================================================== *)

Module Aes.

Definition sbox : list N :=
  [0x63; 0x7c; 0x77; 0x7b; 0xf2; 0x6b; 0x6f; 0xc5; 0x30; 0x01; 0x67; 0x2b;
   0xfe; 0xd7; 0xab; 0x76; 0xca; 0x82; 0xc9; 0x7d; 0xfa; 0x59; 0x47; 0xf0;
   0xad; 0xd4; 0xa2; 0xaf; 0x9c; 0xa4; 0x72; 0xc0; 0xb7; 0xfd; 0x93; 0x26;
   0x36; 0x3f; 0xf7; 0xcc; 0x34; 0xa5; 0xe5; 0xf1; 0x71; 0xd8; 0x31; 0x15;
   0x04; 0xc7; 0x23; 0xc3; 0x18; 0x96; 0x05; 0x9a; 0x07; 0x12; 0x80; 0xe2;
   0xeb; 0x27; 0xb2; 0x75; 0x09; 0x83; 0x2c; 0x1a; 0x1b; 0x6e; 0x5a; 0xa0;
   0x52; 0x3b; 0xd6; 0xb3; 0x29; 0xe3; 0x2f; 0x84; 0x53; 0xd1; 0x00; 0xed;
   0x20; 0xfc; 0xb1; 0x5b; 0x6a; 0xcb; 0xbe; 0x39; 0x4a; 0x4c; 0x58; 0xcf;
   0xd0; 0xef; 0xaa; 0xfb; 0x43; 0x4d; 0x33; 0x85; 0x45; 0xf9; 0x02; 0x7f;
   0x50; 0x3c; 0x9f; 0xa8; 0x51; 0xa3; 0x40; 0x8f; 0x92; 0x9d; 0x38; 0xf5;
   0xbc; 0xb6; 0xda; 0x21; 0x10; 0xff; 0xf3; 0xd2; 0xcd; 0x0c; 0x13; 0xec;
   0x5f; 0x97; 0x44; 0x17; 0xc4; 0xa7; 0x7e; 0x3d; 0x64; 0x5d; 0x19; 0x73;
   0x60; 0x81; 0x4f; 0xdc; 0x22; 0x2a; 0x90; 0x88; 0x46; 0xee; 0xb8; 0x14;
   0xde; 0x5e; 0x0b; 0xdb; 0xe0; 0x32; 0x3a; 0x0a; 0x49; 0x06; 0x24; 0x5c;
   0xc2; 0xd3; 0xac; 0x62; 0x91; 0x95; 0xe4; 0x79; 0xe7; 0xc8; 0x37; 0x6d;
   0x8d; 0xd5; 0x4e; 0xa9; 0x6c; 0x56; 0xf4; 0xea; 0x65; 0x7a; 0xae; 0x08;
   0xba; 0x78; 0x25; 0x2e; 0x1c; 0xa6; 0xb4; 0xc6; 0xe8; 0xdd; 0x74; 0x1f;
   0x4b; 0xbd; 0x8b; 0x8a; 0x70; 0x3e; 0xb5; 0x66; 0x48; 0x03; 0xf6; 0x0e;
   0x61; 0x35; 0x57; 0xb9; 0x86; 0xc1; 0x1d; 0x9e; 0xe1; 0xf8; 0x98; 0x11;
   0x69; 0xd9; 0x8e; 0x94; 0x9b; 0x1e; 0x87; 0xe9; 0xce; 0x55; 0x28; 0xdf;
   0x8c; 0xa1; 0x89; 0x0d; 0xbf; 0xe6; 0x42; 0x68; 0x41; 0x99; 0x2d; 0x0f;
   0xb0; 0x54; 0xbb; 0x16].

Definition sub_byte (x : N) : N := nth (N.to_nat x) sbox 0.

(** Multiplication by x in GF(2^8) modulo x^8 + x^4 + x^3 + x + 1. *)
Definition xtime (a : N) : N :=
  let d := N.land (a * 2) 0xFF in
  if N.testbit a 7 then N.lxor d 0x1B else d.

(** The byte [i] (0 is the most significant) of a 32-bit word. *)
Definition word_byte (w : N) (i : N) : N := N.land (N.shiftr w (8 * (3 - i))) 0xFF.
Definition word_of (b0 b1 b2 b3 : N) : N :=
  b0 * 16777216 + b1 * 65536 + b2 * 256 + b3.

Definition sub_word (w : N) : N :=
  word_of (sub_byte (word_byte w 0)) (sub_byte (word_byte w 1))
          (sub_byte (word_byte w 2)) (sub_byte (word_byte w 3)).
Definition rot_word (w : N) : N :=
  word_of (word_byte w 1) (word_byte w 2) (word_byte w 3) (word_byte w 0).

Definition rcon : list N := [0x01; 0x02; 0x04; 0x08; 0x10; 0x20; 0x40].

(** Key expansion for an eight-word key: [w] holds the words computed so
    far, newest first; word number [i] and [n - 1] more are added. *)
Fixpoint expand (n : nat) (i : nat) (w : list N) : list N :=
  match n with
  | O => w
  | S n' =>
      let prev := nth 0 w 0 in
      let temp :=
        if (i mod 8 =? 0)%nat
        then N.lxor (sub_word (rot_word prev)) (nth (i / 8 - 1) rcon 0 * 16777216)
        else if (i mod 8 =? 4)%nat then sub_word prev
        else prev in
      expand n' (S i) (N.lxor (nth 7 w 0) temp :: w)
  end.

(** The sixty words of the key schedule, oldest first. *)
Definition key_schedule (key : bytes) : list N :=
  rev (expand 52 8 (rev (Sha256.words_of_bytes 8 key))).

(** The sixteen bytes of round key [r]. *)
Definition round_key (ks : list N) (r : nat) : list N :=
  flat_map (fun w => [word_byte w 0; word_byte w 1; word_byte w 2; word_byte w 3])
           (firstn 4 (skipn (4 * r) ks)).

Definition add_round_key (st rk : list N) : list N :=
  map (fun p => N.lxor (fst p) (snd p)) (combine st rk).

Definition sub_bytes (st : list N) : list N := map sub_byte st.

(** The state is held column by column: byte [r + 4 * c] is row [r] of
    column [c]. Row [r] is rotated left by [r] columns. *)
Definition shift_rows (st : list N) : list N :=
  map (fun i => nth (i mod 4 + 4 * ((i / 4 + i mod 4) mod 4)) st 0) (seq 0 16).

Definition mix_column (a0 a1 a2 a3 : N) : list N :=
  let x2 := xtime in
  let x3 := fun a => N.lxor (xtime a) a in
  [N.lxor (N.lxor (x2 a0) (x3 a1)) (N.lxor a2 a3);
   N.lxor (N.lxor a0 (x2 a1)) (N.lxor (x3 a2) a3);
   N.lxor (N.lxor a0 a1) (N.lxor (x2 a2) (x3 a3));
   N.lxor (N.lxor (x3 a0) a1) (N.lxor a2 (x2 a3))].

Definition mix_columns (st : list N) : list N :=
  flat_map (fun c => mix_column (nth (4 * c) st 0) (nth (4 * c + 1) st 0)
                                (nth (4 * c + 2) st 0) (nth (4 * c + 3) st 0))
           (seq 0 4).

(** Rounds [r], [r + 1], ... up to the last full round. *)
Fixpoint rounds (n : nat) (r : nat) (ks st : list N) : list N :=
  match n with
  | O => st
  | S n' =>
      rounds n' (S r) ks
        (add_round_key (mix_columns (shift_rows (sub_bytes st))) (round_key ks r))
  end.

(** The AES-256 encryption of one 128-bit block, block and result given as
    big-endian numbers. *)
Definition encrypt_block (key : bytes) (block : N) : N :=
  let ks := key_schedule key in
  let st0 := add_round_key (map N_of_byte (bytes_of_N_be 16 block)) (round_key ks 0) in
  let st13 := rounds 13 1 ks st0 in
  let st14 := add_round_key (shift_rows (sub_bytes st13)) (round_key ks 14) in
  fold_left (fun acc b => acc * 256 + b) st14 0.

End Aes.

Module Gcm.

(** The reduction constant 11100001 || 0^120. *)
Definition R : N := N.shiftl 0xE1 120.

(** Multiplication in GF(2^128) of two blocks; the leftmost bit of a block
    is its coefficient of degree 0. [v] is [y] times x^i at step [i]. *)
Fixpoint gf_mul_loop (n : nat) (x v z : N) : N :=
  match n with
  | O => z
  | S n' =>
      let z' := if N.testbit x (N.of_nat n') then N.lxor z v else z in
      let v' := if N.testbit v 0 then N.lxor (N.shiftr v 1) R else N.shiftr v 1 in
      gf_mul_loop n' x v' z'
  end.

Definition gf_mul (x y : N) : N := gf_mul_loop 128 x y 0.

Definition ghash (h : N) (blocks : list N) : N :=
  fold_left (fun y x => gf_mul (N.lxor y x) h) blocks 0.

(** The 128-bit blocks of a byte string, the last one filled with zeros. *)
Fixpoint blocks_of (n : nat) (bs : bytes) : list N :=
  match n with
  | O => []
  | S n' =>
      let b := firstn 16 bs in
      N_of_bytes_be (b ++ zeros (16 - length b)) :: blocks_of n' (skipn 16 bs)
  end.

Definition nblocks (bs : bytes) : nat := ((length bs + 15) / 16)%nat.

Definition padded_blocks (bs : bytes) : list N := blocks_of (nblocks bs) bs.

Definition mask32 : N := 0xFFFFFFFF.

(** Increment of the rightmost 32 bits of a counter block. *)
Definition inc32 (cb : N) : N :=
  N.lor (N.ldiff cb mask32) (N.land (cb + 1) mask32).

(** The hash subkey. *)
Definition subkey (key : bytes) : N := Aes.encrypt_block key 0.

(** The pre-counter block J0 of an initialization vector. *)
Definition j0 (key iv : bytes) : N :=
  if (length iv =? 12)%nat then N_of_bytes_be iv * 4294967296 + 1
  else ghash (subkey key) (padded_blocks iv ++ [8 * N.of_nat (length iv)]).

(** [n] blocks of key stream from the counter block [cb] on. *)
Fixpoint keystream (key : bytes) (cb : N) (n : nat) : bytes :=
  match n with
  | O => []
  | S n' => bytes_of_N_be 16 (Aes.encrypt_block key cb) ++ keystream key (inc32 cb) n'
  end.

Definition gctr (key : bytes) (icb : N) (data : bytes) : bytes :=
  xor_bytes data (keystream key icb (nblocks data)).

(** The authentication tag of a ciphertext, without associated data. *)
Definition tag_of (key iv ct : bytes) : bytes :=
  let s := ghash (subkey key) (padded_blocks ct ++ [8 * N.of_nat (length ct)]) in
  bytes_of_N_be 16 (N.lxor s (Aes.encrypt_block key (j0 key iv))).

(** [algorithms.AES(key)]; the module only ever passes the 32-byte key of
    [derive_key_from_master], and only that key size is modelled. *)
Definition check_key (key : bytes) : result unit :=
  if (length key =? 32)%nat then Ok tt
  else Raise (Exn ValueError "Invalid key size for AES" None).

(** [modes.GCM(iv)] and [modes.GCM(iv, tag)] *)
Definition check_iv (iv : bytes) : result unit :=
  if (8 <=? length iv)%nat && (length iv <=? 128)%nat then Ok tt
  else Raise (Exn ValueError "initialization_vector must be between 8 and 128 bytes" None).

Definition check_tag (tag : bytes) : result unit :=
  if (16 <=? length tag)%nat then Ok tt
  else Raise (Exn ValueError "Authentication tag must be 16 bytes or longer" None).

Local Open Scope py_scope.

(** [e = Cipher(AES(key), GCM(iv)).encryptor()], then
    [(e.update(data) + e.finalize(), e.tag)]. The bound of GCM on the
    length of the data, 2^36 - 32 bytes, is not modelled. *)
Definition encrypt (key iv data : bytes) : result (bytes * bytes) :=
  _ <- check_key key ;;
  _ <- check_iv iv ;;
  let ct := gctr key (inc32 (j0 key iv)) data in
  Ok (ct, tag_of key iv ct).

(** [d = Cipher(AES(key), GCM(iv, tag)).decryptor()], then
    [d.update(ct) + d.finalize()]; [finalize] raises [InvalidTag] when the
    tag is not the one of the ciphertext. *)
Definition decrypt (key iv tag ct : bytes) : result bytes :=
  _ <- check_key key ;;
  _ <- check_iv iv ;;
  _ <- check_tag tag ;;
  if bytes_eqb (tag_of key iv ct) tag
  then Ok (gctr key (inc32 (j0 key iv)) ct)
  else Raise (Exn InvalidTag "" None).

End Gcm.

(* ===================================================================== *)
(** ** Entropy: [secrets.token_bytes] *)
(* ===================================================================== *)

(** The bytes that the operating system's generator is going to deliver,
    in the order of delivery. *)
Definition entropy : Type := nat -> byte.

(** [secrets.token_bytes(n)]: the next [n] bytes of the source. *)
Definition token_bytes (n : nat) (rng : entropy) : bytes * entropy :=
  (map rng (seq 0 n), fun i => rng (n + i)%nat).

(* ===================================================================== *)
(** ** [crypto_utils.py] *)
(* ===================================================================== *)

Local Open Scope py_scope.

Definition AES_KEY_SIZE : nat := 32.
Definition IV_SIZE : nat := 16.
Definition TAG_SIZE : nat := 16.
Definition SALT_SIZE : nat := 32.
Definition PBKDF2_ITERATIONS : N := 100000.

(** [not s] for a [str] *)
Definition is_empty (s : str) : bool :=
  match s with
  | [] => true
  | _ :: _ => false
  end.

Definition derive_key_from_master (master_key : str) (salt : bytes)
  : result bytes :=
  if is_empty master_key then
    Raise (Exn ValueError "Master key cannot be empty" None)
  else
    except_Exception RuntimeError "Key derivation failed"
      (master_key_bytes <- Utf8.encode master_key ;;
       Ok (Pbkdf2.derive master_key_bytes salt PBKDF2_ITERATIONS AES_KEY_SIZE)).

Definition encrypt_password (plaintext_password master_key : str)
    (rng : entropy) : result str * entropy :=
  if is_empty plaintext_password then
    (Raise (Exn ValueError "Password cannot be empty" None), rng)
  else if is_empty master_key then
    (Raise (Exn ValueError "Master key cannot be empty" None), rng)
  else
    let (salt, rng1) := token_bytes SALT_SIZE rng in
    let (iv, rng2) := token_bytes IV_SIZE rng1 in
    (except_Exception RuntimeError "Password encryption failed"
       (key <- derive_key_from_master master_key salt ;;
        password_bytes <- Utf8.encode plaintext_password ;;
        sealed <- Gcm.encrypt key iv password_bytes ;;
        let (ciphertext, tag) := sealed in
        let encrypted_data := salt ++ iv ++ tag ++ ciphertext in
        Utf8.decode (Base64.b64encode encrypted_data)),
     rng2).

Definition decrypt_password (encrypted_password master_key : str)
  : result str :=
  if is_empty encrypted_password then
    Raise (Exn ValueError "Encrypted password cannot be empty" None)
  else if is_empty master_key then
    Raise (Exn ValueError "Master key cannot be empty" None)
  else
    except_ValueError_Exception
      "Invalid encrypted password data" "Password decryption failed"
      (encoded <- Utf8.encode encrypted_password ;;
       encrypted_data <- Base64.b64decode encoded ;;
       let min_length := (SALT_SIZE + IV_SIZE + TAG_SIZE)%nat in
       if (length encrypted_data <? min_length)%nat then
         Raise (Exn ValueError "Invalid encrypted data format" None)
       else
         let salt := firstn SALT_SIZE encrypted_data in
         let iv := slice encrypted_data SALT_SIZE IV_SIZE in
         let tag := slice encrypted_data (SALT_SIZE + IV_SIZE) TAG_SIZE in
         let ciphertext := skipn (SALT_SIZE + IV_SIZE + TAG_SIZE) encrypted_data in
         key <- derive_key_from_master master_key salt ;;
         plaintext_bytes <- Gcm.decrypt key iv tag ciphertext ;;
         Utf8.decode plaintext_bytes).

Definition change_password_encryption
    (old_encrypted old_master_key new_master_key : str) (rng : entropy)
  : result str * entropy :=
  match decrypt_password old_encrypted old_master_key with
  | Raise e =>
      (Raise (Exn RuntimeError "Password re-encryption failed" (Some e)), rng)
  | Ok plaintext =>
      let (new_encrypted, rng') := encrypt_password plaintext new_master_key rng in
      (except_Exception RuntimeError "Password re-encryption failed" new_encrypted,
       rng')
  end.

(** [verify_encryption_integrity]: whether decryption succeeds. *)
Definition verify_encryption_integrity (encrypted_password master_key : str)
  : bool :=
  match decrypt_password encrypted_password master_key with
  | Ok _ => true
  | Raise _ => false
  end.

(** *** The signals of the error taxonomy *)

(** The empty-input errors, raised before the [try] blocks. *)
Definition empty_password_error : exn :=
  Exn ValueError "Password cannot be empty" None.
Definition empty_master_key_error : exn :=
  Exn ValueError "Master key cannot be empty" None.
Definition empty_envelope_error : exn :=
  Exn ValueError "Encrypted password cannot be empty" None.

(** The error of the length check of [decrypt_password], as it leaves the
    function. *)
Definition malformed_envelope_error : exn :=
  Exn ValueError "Invalid encrypted password data"
      (Some (Exn ValueError "Invalid encrypted data format" None)).

(** The error of [decrypt_password] when [finalize] raises [InvalidTag]. *)
Definition authentication_error : exn :=
  Exn RuntimeError "Password decryption failed" (Some (Exn InvalidTag "" None)).

(** The segments of an envelope, as [decrypt_password] cuts them. *)
Definition envelope_salt (data : bytes) : bytes := firstn SALT_SIZE data.
Definition envelope_iv (data : bytes) : bytes := slice data SALT_SIZE IV_SIZE.
Definition envelope_tag (data : bytes) : bytes :=
  slice data (SALT_SIZE + IV_SIZE) TAG_SIZE.
Definition envelope_ciphertext (data : bytes) : bytes :=
  skipn (SALT_SIZE + IV_SIZE + TAG_SIZE) data.

(** The [str] of ASCII bytes. *)
Definition str_of_bytes (bs : bytes) : str := map N_of_byte bs.

(** The text of an envelope with the given bytes. *)
Definition envelope_of (data : bytes) : str := str_of_bytes (Base64.b64encode data).

(** *** What the functions compute, named for the statements below *)

(** A code point that is a Unicode scalar value, that is, not a surrogate. *)
Definition is_scalar_value (c : N) : bool :=
  (c <? 0xD800) || ((0xE000 <=? c) && (c <? 0x110000)).

(** A [str] without surrogate code points. *)
Definition utf8_encodable (s : str) : bool := forallb is_scalar_value s.

(** A byte below 128. *)
Definition is_ascii (b : byte) : Prop := N_of_byte b < 128.

(** The key derived from the UTF-8 bytes [kb] of a master key. *)
Definition master_key_of (kb salt : bytes) : bytes :=
  Pbkdf2.derive kb salt PBKDF2_ITERATIONS AES_KEY_SIZE.

(** The ciphertext, the tag and the envelope bytes that [encrypt_password]
    produces for the UTF-8 bytes [kb] of the master key and [pb] of the
    plaintext, with the salt and the nonce drawn. *)
Definition sealed_ciphertext (kb pb salt iv : bytes) : bytes :=
  let key := master_key_of kb salt in
  Gcm.gctr key (Gcm.inc32 (Gcm.j0 key iv)) pb.

Definition sealed_tag (kb pb salt iv : bytes) : bytes :=
  Gcm.tag_of (master_key_of kb salt) iv (sealed_ciphertext kb pb salt iv).

Definition sealed_data (kb pb salt iv : bytes) : bytes :=
  salt ++ iv ++ sealed_tag kb pb salt iv ++ sealed_ciphertext kb pb salt iv.

(** The salt and the nonce that [encrypt_password] draws from a source,
    and the source it leaves. *)
Definition drawn_salt (rng : entropy) : bytes := fst (token_bytes SALT_SIZE rng).
Definition drawn_iv (rng : entropy) : bytes :=
  fst (token_bytes IV_SIZE (snd (token_bytes SALT_SIZE rng))).
Definition after_draws (rng : entropy) : entropy :=
  snd (token_bytes IV_SIZE (snd (token_bytes SALT_SIZE rng))).

(** Whether the tag of an envelope is the one GCM computes under the key
    derived from [kb], and the bytes that GCM then releases. *)
Definition tag_verifies (kb data : bytes) : bool :=
  bytes_eqb (Gcm.tag_of (master_key_of kb (envelope_salt data)) (envelope_iv data)
                        (envelope_ciphertext data))
            (envelope_tag data).

Definition opened_bytes (kb data : bytes) : bytes :=
  let key := master_key_of kb (envelope_salt data) in
  Gcm.gctr key (Gcm.inc32 (Gcm.j0 key (envelope_iv data))) (envelope_ciphertext data).

(** Encryption followed by decryption under the same key gives the
    plaintext back. *)
Definition round_trips (P K : str) (rng : entropy) : Prop :=
  exists env, fst (encrypt_password P K rng) = Ok env /\ decrypt_password env K = Ok P.

(** The layout of the envelope returned for the plaintext [P] and the
    master key [K]: the base64 text of the salt drawn, the nonce drawn, the
    tag and the ciphertext that AES-GCM gives for the UTF-8 bytes of [P]
    under the key derived from [K] and that salt, in this order; the
    decoded text is this concatenation, and the slices of
    [decrypt_password] cut it back into these four segments, the ciphertext
    being all that follows the first 64 bytes. *)
Definition envelope_layout (P K : str) (rng : entropy) (env : str) : Prop :=
  exists pb key salt iv tag ct,
    Utf8.encode P = Ok pb /\
    salt = drawn_salt rng /\ iv = drawn_iv rng /\
    derive_key_from_master K salt = Ok key /\
    Gcm.encrypt key iv pb = Ok (ct, tag) /\
    length salt = SALT_SIZE /\ length iv = IV_SIZE /\ length tag = TAG_SIZE /\
    length ct = length pb /\
    env = str_of_bytes (Base64.b64encode (salt ++ iv ++ tag ++ ct)) /\
    exists encoded data,
      Utf8.encode env = Ok encoded /\ Base64.b64decode encoded = Ok data /\
      data = salt ++ iv ++ tag ++ ct /\
      envelope_salt data = salt /\ envelope_iv data = iv /\
      envelope_tag data = tag /\ envelope_ciphertext data = ct /\
      envelope_ciphertext data = skipn 64 data.

(** The errors that wrap another one. *)
Definition key_derivation_error (e : exn) : exn :=
  Exn RuntimeError "Key derivation failed" (Some e).
Definition reencryption_error (e : exn) : exn :=
  Exn RuntimeError "Password re-encryption failed" (Some e).


(** *** Concrete inputs *)

(** A source that delivers zero bytes only. *)
Definition zero_entropy : entropy := fun _ => Byte.x00.

(** The one-character [str] ["\ud800"], a lone surrogate. *)
Definition lone_surrogate : str := [0xD800].

Definition sample_plaintext : str := str_of_string "secret123".
Definition sample_key : str := str_of_string "keyA".
Definition sample_plaintext_bytes : bytes := list_byte_of_string "secret123".
Definition sample_key_bytes : bytes := list_byte_of_string "keyA".
Definition sample_salt : bytes := drawn_salt zero_entropy.
Definition sample_iv : bytes := drawn_iv zero_entropy.

(** The master keys ["a"] and ["a\x00"]. *)
Definition key_a : str := str_of_string "a".
Definition key_a_nul : str := [97; 0].



(** An envelope under [sample_key] that holds the empty plaintext. *)
Definition empty_plaintext_envelope : str :=
  envelope_of (sealed_data sample_key_bytes [] sample_salt sample_iv).

(* ===================================================================== *)
(** ** [crypto_utils.py], continued, and the loop of [dashboard] in [app.py] *)
(* ===================================================================== *)

(** One lower-case hexadecimal digit, as a code point. *)
Definition hex_digit (n : N) : N := if n <? 10 then 48 + n else 87 + n.

(** The lower-case hexadecimal text of a byte string, two digits a byte. *)
Definition hexlify (bs : bytes) : str :=
  flat_map (fun b => [hex_digit (N_of_byte b / 16); hex_digit (N_of_byte b mod 16)]) bs.

(** [secrets.token_hex(n)] *)
Definition token_hex (n : nat) (rng : entropy) : str * entropy :=
  let (bs, rng') := token_bytes n rng in (hexlify bs, rng').

Definition generate_encryption_key (rng : entropy) : str * entropy :=
  token_hex 32 rng.

(** [ord(x) ^ ord(y)] is taken over the code points; [zip] stops at the
    shorter string. *)
Definition secure_compare (a b : str) : bool :=
  if negb (length a =? length b)%nat then false
  else
    let result :=
      fold_left (fun result xy => N.lor result (N.lxor (fst xy) (snd xy)))
                (combine a b) 0 in
    result =? 0.

(** A row of the table [passwords] ([models.Password]); the timestamps are
    kept as numbers. *)
Record Password : Type := {
  password_id : N;
  user_id : N;
  service : str;
  username : str;
  url : option str;
  notes : option str;
  encrypted_password : str;
  created_at : N;
  updated_at : N
}.

(** An entry of the list that [dashboard] hands to its template. *)
Record dashboard_entry : Type := {
  entry_id : N;
  entry_service : str;
  entry_username : str;
  entry_password : str;
  entry_url : option str;
  entry_notes : option str;
  entry_created_at : N;
  entry_updated_at : N
}.

Definition entry_of (pwd : Password) (decrypted_pwd : str) : dashboard_entry :=
  {| entry_id := password_id pwd;
     entry_service := service pwd;
     entry_username := username pwd;
     entry_password := decrypted_pwd;
     entry_url := url pwd;
     entry_notes := notes pwd;
     entry_created_at := created_at pwd;
     entry_updated_at := updated_at pwd |}.

(** The loop of [dashboard] over the rows of the current user: a row whose
    password does not decrypt is skipped. *)
Definition dashboard_passwords (passwords : list Password) (encryption_key : str)
  : list dashboard_entry :=
  fold_left
    (fun decrypted_passwords pwd =>
       match decrypt_password (encrypted_password pwd) encryption_key with
       | Ok decrypted_pwd => decrypted_passwords ++ [entry_of pwd decrypted_pwd]
       | Raise _ => decrypted_passwords
       end)
    passwords [].

(** *** Notions used to state the properties of these functions *)

(** The entries that one row adds to the list of [dashboard]. *)
Definition entries_of_row (encryption_key : str) (pwd : Password)
  : list dashboard_entry :=
  match decrypt_password (encrypted_password pwd) encryption_key with
  | Ok decrypted_pwd => [entry_of pwd decrypted_pwd]
  | Raise _ => []
  end.

(** A character of the base64 alphabet, or the padding character. *)
Definition is_base64_char (c : N) : bool :=
  ((65 <=? c) && (c <=? 90)) || ((97 <=? c) && (c <=? 122))
  || ((48 <=? c) && (c <=? 57)) || (c =? 43) || (c =? 47) || (c =? 61).

(** A lower-case hexadecimal digit. *)
Definition is_hex_char (c : N) : bool :=
  ((48 <=? c) && (c <=? 57)) || ((97 <=? c) && (c <=? 102)).

(** The envelope of [sample_plaintext] under [sample_key]. *)
Definition sample_envelope : str :=
  envelope_of (sealed_data sample_key_bytes sample_plaintext_bytes
                 (drawn_salt zero_entropy) (drawn_iv zero_entropy)).

(** The envelope of [sample_plaintext] under [key_a]. *)
Definition key_a_bytes : bytes := list_byte_of_string "a".
Definition sample_envelope_a : str :=
  envelope_of (sealed_data key_a_bytes sample_plaintext_bytes
                 (drawn_salt zero_entropy) (drawn_iv zero_entropy)).

(** A text that decodes to three bytes, and one that is not base64. *)
Definition short_text : str := str_of_string "QUJD".
Definition unpadded_text : str := str_of_string "QUJ".

(** A row that holds [sample_envelope], and one that holds [short_text]. *)
Definition sample_row : Password :=
  {| password_id := 1; user_id := 1;
     service := str_of_string "mail"; username := str_of_string "alice";
     url := None; notes := None;
     encrypted_password := sample_envelope;
     created_at := 0; updated_at := 0 |}.
Definition corrupt_row : Password :=
  {| password_id := 2; user_id := 1;
     service := str_of_string "bank"; username := str_of_string "alice";
     url := None; notes := None;
     encrypted_password := short_text;
     created_at := 0; updated_at := 0 |}.

(* ===================================================================== *)
(** * Known answers of the library functions *)
(* ===================================================================== *)

(** FIPS 180-4, the first and the last round constant and initial word. *)
Example sha256_constants :
  nth 0 Sha256.K 0 = 0x428a2f98 /\ nth 63 Sha256.K 0 = 0xc67178f2 /\
  length Sha256.K = 64%nat /\
  fst (fst (fst (fst (fst (fst (fst Sha256.H0)))))) = 0x6a09e667 /\
  snd Sha256.H0 = 0x5be0cd19.
Proof. vm_compute. repeat split. Qed.

(** FIPS 180-4, the digest of ["abc"]. *)
Example sha256_abc :
  N_of_bytes_be (Sha256.sha256 (list_byte_of_string "abc"))
  = 0xba7816bf8f01cfea414140de5dae2223b00361a396177a9cb410ff61f20015ad.
Proof. vm_compute. reflexivity. Qed.

Example hmac_sha256_fox :
  N_of_bytes_be (Hmac.hmac_sha256 (list_byte_of_string "key")
     (list_byte_of_string "The quick brown fox jumps over the lazy dog"))
  = 0xf7bc83f430538424b13298e6aa6fb143ef4d59a14946175997479dbc2d1a3cd8.
Proof. vm_compute. reflexivity. Qed.

(** PBKDF2-HMAC-SHA256 of ["password"] and ["salt"], one and two iterations. *)
Example pbkdf2_one_iteration :
  N_of_bytes_be (Pbkdf2.derive (list_byte_of_string "password")
                               (list_byte_of_string "salt") 1 32)
  = 0x120fb6cffcf8b32c43e7225256c4f837a86548c92ccc35480805987cb70be17b.
Proof. vm_compute. reflexivity. Qed.

Example pbkdf2_two_iterations :
  N_of_bytes_be (Pbkdf2.derive (list_byte_of_string "password")
                               (list_byte_of_string "salt") 2 32)
  = 0xae4d0c95af6b46d32d0adff928f06dd02a303f8ef3c251dfd6e2d85a95474c43.
Proof. vm_compute. reflexivity. Qed.

(** FIPS 197, appendix C.3. *)
Example aes256_fips197 :
  Aes.encrypt_block (bytes_of_N_be 32
     0x000102030405060708090a0b0c0d0e0f101112131415161718191a1b1c1d1e1f)
     0x00112233445566778899aabbccddeeff
  = 0x8ea2b7ca516745bfeafc49904b496089.
Proof. vm_compute. reflexivity. Qed.

(** AES-256-GCM with a zero key, a zero 96-bit nonce and one zero block. *)
Example gcm_zero_key_block :
  Gcm.encrypt (zeros 32) (zeros 12) (zeros 16)
  = Ok (bytes_of_N_be 16 0xcea7403d4d606b6e074ec5d3baf39d18,
        bytes_of_N_be 16 0xd0d1c8a799996bf0265b98b5d48ab919).
Proof. vm_compute. reflexivity. Qed.

(** AES-256-GCM with a 16-byte nonce, the size the module uses. *)
Example gcm_nonce_of_16_bytes :
  Gcm.encrypt (bytes_of_N_be 32
     0x000102030405060708090a0b0c0d0e0f101112131415161718191a1b1c1d1e1f)
     (bytes_of_N_be 16 0x000102030405060708090a0b0c0d0e0f)
     (list_byte_of_string "P@ssw0rd!")
  = Ok (bytes_of_N_be 9 0x372cd3054ed4384cbc,
        bytes_of_N_be 16 0xfeb244f80d8cb4f705fa8bdebb7f635d).
Proof. vm_compute. reflexivity. Qed.

(** [b64decode] skips bytes outside the alphabet, stops at the padding
    that completes a group and refuses input that ends inside a group. *)
Example b64decode_skips_blanks :
  Base64.b64decode (list_byte_of_string "QU JD") = Ok (list_byte_of_string "ABC").
Proof. vm_compute. reflexivity. Qed.

Example b64decode_stops_at_padding :
  Base64.b64decode (list_byte_of_string "QUI=QUJD") = Ok (list_byte_of_string "AB").
Proof. vm_compute. reflexivity. Qed.

Example b64decode_incorrect_padding :
  Base64.b64decode (list_byte_of_string "QUJ")
  = Raise (Exn BinasciiError "Incorrect padding" None).
Proof. vm_compute. reflexivity. Qed.

(** A surrogate has no UTF-8 encoding. *)
Example utf8_refuses_surrogate :
  Utf8.encode lone_surrogate
  = Raise (Exn UnicodeEncodeError "'utf-8' codec can't encode character" None).
Proof. vm_compute. reflexivity. Qed.

(* ===================================================================== *)
(** * Bytes *)
(* ===================================================================== *)

Ltac Zify.zify_post_hook ::= Z.to_euclidean_division_equations.

(** Splits conjunctions only; equations are left to be proved by hand. *)
Ltac split_and := repeat match goal with |- _ /\ _ => split end.

(** Settles the comparisons of the goal that the context decides. *)
Ltac decide_tests :=
  repeat match goal with
         | |- context [N.ltb ?a ?b] =>
             first [ rewrite (proj2 (N.ltb_lt a b)) by lia
                   | rewrite (proj2 (N.ltb_ge a b)) by lia ]
         | |- context [N.leb ?a ?b] =>
             first [ rewrite (proj2 (N.leb_le a b)) by lia
                   | rewrite (proj2 (N.leb_gt a b)) by lia ]
         end.

Lemma Some_eq {A} (a b : A) : Some a = Some b -> a = b.
Proof. congruence. Qed.

Lemma Ok_inj {A} (a b : A) : Ok a = Ok b -> a = b.
Proof.
  intros H. exact (f_equal (fun r => match r with Ok x => x | Raise _ => a end) H).
Qed.

Lemma N_of_byte_lt (b : byte) : N_of_byte b < 256.
Proof. pose proof (Byte.to_N_bounded b). unfold N_of_byte. lia. Qed.

Lemma N_of_byte_of_N (n : N) : n < 256 -> N_of_byte (byte_of_N n) = n.
Proof.
  intros Hn. unfold N_of_byte, byte_of_N. rewrite N.mod_small by assumption.
  destruct (Byte.of_N n) as [b|] eqn:E.
  - now apply Byte.to_of_N.
  - apply Byte.of_N_None_iff in E. lia.
Qed.

Lemma byte_of_N_of_byte (b : byte) : byte_of_N (N_of_byte b) = b.
Proof.
  unfold byte_of_N, N_of_byte.
  rewrite N.mod_small by (pose proof (Byte.to_N_bounded b); lia).
  now rewrite Byte.of_to_N.
Qed.

Lemma byte_of_N_eq (n : N) (b : byte) : n = N_of_byte b -> byte_of_N n = b.
Proof. intros ->. apply byte_of_N_of_byte. Qed.

Lemma lxor_lt_256 (a b : N) : a < 256 -> b < 256 -> N.lxor a b < 256.
Proof.
  intros Ha Hb.
  destruct (N.eq_dec (N.lxor a b) 0) as [E|E]; [rewrite E; lia|].
  change 256 with (2 ^ 8). apply N.log2_lt_pow2; [lia|].
  pose proof (N.log2_lxor a b) as L.
  assert (N.log2 a < 8).
  { destruct (N.eq_dec a 0) as [->|]; [cbn; lia|]. apply N.log2_lt_pow2; [lia|]. exact Ha. }
  assert (N.log2 b < 8).
  { destruct (N.eq_dec b 0) as [->|]; [cbn; lia|]. apply N.log2_lt_pow2; [lia|]. exact Hb. }
  lia.
Qed.

Lemma byte_xor_cancel (a b : byte) : byte_xor (byte_xor a b) b = a.
Proof.
  unfold byte_xor.
  rewrite N_of_byte_of_N by (apply lxor_lt_256; apply N_of_byte_lt).
  rewrite N.lxor_assoc, N.lxor_nilpotent, N.lxor_0_r.
  apply byte_of_N_of_byte.
Qed.


Lemma xor_bytes_length (data pad : bytes) :
  (length data <= length pad)%nat -> length (xor_bytes data pad) = length data.
Proof.
  revert pad; induction data as [|d data IH]; intros [|p pad] H; simpl in *; try lia.
  rewrite IH; lia.
Qed.

Lemma xor_bytes_cancel (data pad : bytes) :
  (length data <= length pad)%nat -> xor_bytes (xor_bytes data pad) pad = data.
Proof.
  revert pad; induction data as [|d data IH]; intros [|p pad] H; simpl in *;
    try lia; try reflexivity.
  rewrite byte_xor_cancel, IH; [reflexivity|lia].
Qed.

Lemma bytes_of_N_be_length (len : nat) (x : N) : length (bytes_of_N_be len x) = len.
Proof. induction len; simpl; congruence. Qed.

Lemma bytes_eqb_eq (a b : bytes) : bytes_eqb a b = true <-> a = b.
Proof. unfold bytes_eqb. destruct (list_eq_dec Byte.byte_eq_dec a b); split; congruence. Qed.

Lemma bytes_eqb_refl (a : bytes) : bytes_eqb a a = true.
Proof. now apply bytes_eqb_eq. Qed.

Lemma bytes_eqb_neq (a b : bytes) : a <> b -> bytes_eqb a b = false.
Proof. unfold bytes_eqb. destruct (list_eq_dec Byte.byte_eq_dec a b); congruence. Qed.



Lemma is_empty_false (s : str) : s <> [] -> is_empty s = false.
Proof. destruct s; [congruence|reflexivity]. Qed.

(* ===================================================================== *)
(** * UTF-8 *)
(* ===================================================================== *)

Lemma decode_encode_char (c : N) (b : bytes) :
  Utf8.encode_char c = Some b ->
  forall rest,
    Utf8.decode_chars (b ++ rest) = option_map (cons c) (Utf8.decode_chars rest).
Proof.
  unfold Utf8.encode_char. intros H rest.
  destruct (N.ltb_spec c 0x80).
  { apply Some_eq in H; subst b. cbn [app Utf8.decode_chars].
    rewrite N_of_byte_of_N by lia. decide_tests. reflexivity. }
  destruct (N.ltb_spec c 0x800).
  { apply Some_eq in H; subst b. cbn [app Utf8.decode_chars].
    rewrite !N_of_byte_of_N by lia.
    unfold Utf8.is_cont. decide_tests. cbn [andb]. do 2 f_equal. lia. }
  destruct (N.ltb_spec c 0x10000).
  { destruct (N.leb_spec 0xD800 c); destruct (N.ltb_spec c 0xE000);
      cbn [andb] in H; try discriminate;
      apply Some_eq in H; subst b; cbn [app Utf8.decode_chars];
      rewrite !N_of_byte_of_N by lia;
      unfold Utf8.is_cont; decide_tests; cbn [andb negb]; do 2 f_equal; lia. }
  destruct (N.ltb_spec c 0x110000); [|discriminate].
  apply Some_eq in H; subst b. cbn [app Utf8.decode_chars].
  rewrite !N_of_byte_of_N by lia.
  unfold Utf8.is_cont. decide_tests. cbn [andb]. do 2 f_equal. lia.
Qed.

Lemma decode_encode_chars (s : str) (b : bytes) :
  Utf8.encode_chars s = Some b -> Utf8.decode_chars b = Some s.
Proof.
  revert b; induction s as [|c s IH]; intros b H; simpl in H.
  - apply Some_eq in H. now subst b.
  - destruct (Utf8.encode_char c) as [bc|] eqn:Ec; [|discriminate].
    destruct (Utf8.encode_chars s) as [bs|] eqn:Es; [|discriminate].
    apply Some_eq in H. subst b.
    rewrite (decode_encode_char _ _ Ec), (IH _ eq_refl). reflexivity.
Qed.

(** Decoding the encoding of a [str] gives the [str] back. *)
Lemma utf8_decode_encode (s : str) (b : bytes) :
  Utf8.encode s = Ok b -> Utf8.decode b = Ok s.
Proof.
  unfold Utf8.encode, Utf8.decode.
  destruct (Utf8.encode_chars s) as [b'|] eqn:E; [|discriminate].
  intros H. apply Ok_inj in H. subst b'. now rewrite (decode_encode_chars _ _ E).
Qed.

Lemma decode_ascii (bs : bytes) :
  Forall is_ascii bs -> Utf8.decode_chars bs = Some (str_of_bytes bs).
Proof.
  induction 1 as [|b bs Hb _ IH]; [reflexivity|].
  cbn [Utf8.decode_chars]. red in Hb.
  destruct (N.ltb_spec (N_of_byte b) 0x80); [|lia].
  rewrite IH. reflexivity.
Qed.

Lemma encode_ascii (bs : bytes) :
  Forall is_ascii bs -> Utf8.encode_chars (str_of_bytes bs) = Some bs.
Proof.
  induction 1 as [|b bs Hb _ IH]; [reflexivity|].
  cbn [str_of_bytes map Utf8.encode_chars]. fold (str_of_bytes bs). rewrite IH.
  unfold Utf8.encode_char. red in Hb.
  destruct (N.ltb_spec (N_of_byte b) 0x80); [|lia].
  now rewrite byte_of_N_of_byte.
Qed.

Lemma encode_char_scalar (c : N) :
  is_scalar_value c = true -> exists b, Utf8.encode_char c = Some b.
Proof.
  unfold is_scalar_value, Utf8.encode_char. intros H.
  destruct (N.ltb_spec c 0x80); [eauto|].
  destruct (N.ltb_spec c 0x800); [eauto|].
  destruct (N.ltb_spec c 0xD800), (N.leb_spec 0xE000 c), (N.ltb_spec c 0x110000);
    cbn [orb andb] in H; try discriminate; try lia;
    destruct (N.ltb_spec c 0x10000); try lia;
    destruct (N.leb_spec 0xD800 c); try lia;
    try (destruct (N.ltb_spec c 0xE000); try lia); cbn [andb]; eauto.
Qed.

Lemma encode_char_not_scalar (c : N) :
  is_scalar_value c = false -> Utf8.encode_char c = None.
Proof.
  unfold is_scalar_value, Utf8.encode_char. intros H.
  destruct (N.ltb_spec c 0xD800), (N.leb_spec 0xE000 c), (N.ltb_spec c 0x110000);
    cbn [orb andb] in H; try discriminate; try lia;
    destruct (N.ltb_spec c 0x80); try lia;
    destruct (N.ltb_spec c 0x800); try lia;
    destruct (N.ltb_spec c 0x10000); try lia;
    try (destruct (N.leb_spec 0xD800 c); try lia);
    try (destruct (N.ltb_spec c 0xE000); try lia); reflexivity.
Qed.

(** A [str] encodes exactly when it holds no surrogate. *)
Lemma utf8_encodable_encode (s : str) :
  utf8_encodable s = true -> exists b, Utf8.encode s = Ok b.
Proof.
  unfold Utf8.encode. intros H.
  enough (exists b, Utf8.encode_chars s = Some b) as [b ->] by eauto.
  induction s as [|c s IH]; cbn [Utf8.encode_chars]; [eauto|].
  cbn [utf8_encodable forallb] in H. apply andb_true_iff in H as [Hc Hs].
  destruct (encode_char_scalar c Hc) as [bc ->].
  destruct (IH Hs) as [bs ->]. eauto.
Qed.

Lemma encode_utf8_encodable (s : str) (b : bytes) :
  Utf8.encode s = Ok b -> utf8_encodable s = true.
Proof.
  unfold Utf8.encode.
  destruct (Utf8.encode_chars s) as [b'|] eqn:E; [intros _|discriminate].
  revert b' E. induction s as [|c s IH]; intros b' E; [reflexivity|].
  cbn [Utf8.encode_chars] in E. cbn [utf8_encodable forallb].
  destruct (is_scalar_value c) eqn:Hc.
  - destruct (Utf8.encode_char c); [|discriminate].
    destruct (Utf8.encode_chars s) as [bs|]; [|discriminate].
    exact (IH bs eq_refl).
  - rewrite (encode_char_not_scalar c Hc) in E. discriminate.
Qed.

(* ===================================================================== *)
(** * Base64 *)
(* ===================================================================== *)

(** Induction on a list three elements at a time. *)
Lemma list_ind3 {A} (P : list A -> Prop) :
  P [] -> (forall x, P [x]) -> (forall x y, P [x; y]) ->
  (forall x y z r, P r -> P (x :: y :: z :: r)) ->
  forall l, P l.
Proof.
  intros H0 H1 H2 H3 l.
  enough (P l /\ (forall x, P (x :: l)) /\ (forall x y, P (x :: y :: l))) by tauto.
  induction l as [|a l (IH0 & IH1 & IH2)]; split_and; auto.
Qed.

Lemma b2a_spec (n : N) :
  n < 64 ->
  Base64.a2b (Base64.b2a n) = Some n /\ Base64.is_pad (Base64.b2a n) = false
  /\ is_ascii (Base64.b2a n).
Proof.
  intros Hn.
  assert (H : forall m : nat, (m < 64)%nat ->
     Base64.a2b (Base64.b2a (N.of_nat m)) = Some (N.of_nat m)
     /\ Base64.is_pad (Base64.b2a (N.of_nat m)) = false
     /\ (N_of_byte (Base64.b2a (N.of_nat m)) <? 128) = true).
  { intros m Hm. do 64 (destruct m as [|m]; [vm_compute; auto|]). lia. }
  destruct (H (N.to_nat n)) as (H1 & H2 & H3); [lia|].
  rewrite N2Nat.id in *. split_and; auto. now apply N.ltb_lt.
Qed.

(** One step of the decoding loop on a character of the alphabet. *)
Lemma a2b_loop_data (v : N) (rest : bytes) (q : nat) (l : N) (p : nat) :
  v < 64 ->
  Base64.a2b_loop (Base64.b2a v :: rest) q l p =
  match q with
  | O => Base64.a2b_loop rest 1 v 0
  | S O =>
      match Base64.a2b_loop rest 2 (v mod 16) 0 with
      | Ok out => Ok (byte_of_N (l * 4 + v / 16) :: out)
      | Raise e => Raise e
      end
  | S (S O) =>
      match Base64.a2b_loop rest 3 (v mod 4) 0 with
      | Ok out => Ok (byte_of_N (l * 16 + v / 4) :: out)
      | Raise e => Raise e
      end
  | _ =>
      match Base64.a2b_loop rest 0 0 0 with
      | Ok out => Ok (byte_of_N (l * 64 + v) :: out)
      | Raise e => Raise e
      end
  end.
Proof.
  intros Hv. destruct (b2a_spec v Hv) as (H1 & H2 & _).
  cbn [Base64.a2b_loop]. rewrite H2, H1. reflexivity.
Qed.

(** Decoding the base64 text of a byte string gives the bytes back. *)
Lemma b64decode_b64encode (bs : bytes) :
  Base64.b64decode (Base64.b64encode bs) = Ok bs.
Proof.
  unfold Base64.b64decode, Base64.b64encode.
  induction bs as [|x|x y|x y z r IH] using list_ind3.
  - reflexivity.
  - pose proof (N_of_byte_lt x).
    cbn [Base64.b2a_base64].
    rewrite !a2b_loop_data by lia.
    cbn. f_equal. f_equal. apply byte_of_N_eq. lia.
  - pose proof (N_of_byte_lt x). pose proof (N_of_byte_lt y).
    cbn [Base64.b2a_base64].
    rewrite !a2b_loop_data by lia.
    cbn. f_equal. f_equal; [|f_equal]; apply byte_of_N_eq; lia.
  - pose proof (N_of_byte_lt x). pose proof (N_of_byte_lt y). pose proof (N_of_byte_lt z).
    cbn [Base64.b2a_base64].
    rewrite !a2b_loop_data by lia.
    rewrite IH. f_equal. f_equal; [|f_equal; [|f_equal]]; apply byte_of_N_eq; lia.
Qed.

Lemma is_ascii_pad : is_ascii Base64.pad.
Proof. red. vm_compute. reflexivity. Qed.

Lemma b64encode_ascii (bs : bytes) : Forall is_ascii (Base64.b64encode bs).
Proof.
  unfold Base64.b64encode.
  induction bs as [|x|x y|x y z r IH] using list_ind3; cbn [Base64.b2a_base64].
  - constructor.
  - pose proof (N_of_byte_lt x).
    repeat constructor; try apply is_ascii_pad; apply b2a_spec; lia.
  - pose proof (N_of_byte_lt x). pose proof (N_of_byte_lt y).
    repeat constructor; try apply is_ascii_pad; apply b2a_spec; lia.
  - pose proof (N_of_byte_lt x). pose proof (N_of_byte_lt y). pose proof (N_of_byte_lt z).
    repeat (constructor; [apply b2a_spec; lia|]). exact IH.
Qed.

(* ===================================================================== *)
(** * SHA-256, HMAC and PBKDF2 *)
(* ===================================================================== *)

Lemma sha256_length (msg : bytes) : length (Sha256.sha256 msg) = 32%nat.
Proof.
  unfold Sha256.sha256.
  destruct (Sha256.blocks _ _ _) as [[[[[[[a b] c] d] e] f] g] h].
  cbn [Sha256.digest_of_state].
  rewrite !length_app, !bytes_of_N_be_length. reflexivity.
Qed.

Lemma hmac_sha256_length (key msg : bytes) :
  length (Hmac.hmac_sha256 key msg) = 32%nat.
Proof. apply sha256_length. Qed.

(** HMAC sees its key only through the key block. *)
Lemma hmac_sha256_key_block (k1 k2 msg : bytes) :
  Hmac.key_block k1 = Hmac.key_block k2 ->
  Hmac.hmac_sha256 k1 msg = Hmac.hmac_sha256 k2 msg.
Proof. unfold Hmac.hmac_sha256. now intros ->. Qed.

Lemma N_iter_ext {A} (f g : A -> A) :
  (forall x, f x = g x) -> forall n x, N.iter n f x = N.iter n g x.
Proof.
  intros E n. induction n as [|n IH] using N.peano_ind; intros x; [reflexivity|].
  rewrite !N.iter_succ, IH. apply E.
Qed.

Lemma pbkdf2_F_length (password salt : bytes) (c i : N) :
  length (Pbkdf2.F password salt c i) = 32%nat.
Proof.
  unfold Pbkdf2.F.
  set (u1 := Hmac.hmac_sha256 password _).
  apply (N.iter_invariant (c - 1) _ (Pbkdf2.step password)
           (fun st => length (fst st) = 32%nat /\ length (snd st) = 32%nat)).
  - intros [u acc] [Hu Hacc]. cbn [Pbkdf2.step fst snd] in *. split.
    + apply hmac_sha256_length.
    + rewrite xor_bytes_length; [assumption|]. rewrite hmac_sha256_length. lia.
  - split; apply hmac_sha256_length.
Qed.

(** A derived key of 32 bytes has 32 bytes, whatever the iteration count. *)
Lemma pbkdf2_derive_length (password salt : bytes) (c : N) :
  length (Pbkdf2.derive password salt c 32) = 32%nat.
Proof.
  unfold Pbkdf2.derive.
  change ((32 + Sha256.digest_size - 1) / Sha256.digest_size)%nat with 1%nat.
  cbn [Pbkdf2.T]. rewrite app_nil_r, firstn_all2; rewrite pbkdf2_F_length; lia.
Qed.

Lemma pbkdf2_F_key_block (k1 k2 salt : bytes) (c i : N) :
  Hmac.key_block k1 = Hmac.key_block k2 ->
  Pbkdf2.F k1 salt c i = Pbkdf2.F k2 salt c i.
Proof.
  intros E. unfold Pbkdf2.F.
  rewrite (hmac_sha256_key_block k1 k2 _ E). f_equal.
  apply N_iter_ext. intros [u acc]. cbn [Pbkdf2.step].
  now rewrite (hmac_sha256_key_block k1 k2 _ E).
Qed.

(** Passwords with the same HMAC key block derive the same key. *)
Lemma pbkdf2_derive_key_block (k1 k2 salt : bytes) (c : N) (len : nat) :
  Hmac.key_block k1 = Hmac.key_block k2 ->
  Pbkdf2.derive k1 salt c len = Pbkdf2.derive k2 salt c len.
Proof.
  intros E. unfold Pbkdf2.derive. f_equal.
  generalize 1 as i.
  induction ((len + Sha256.digest_size - 1) / Sha256.digest_size)%nat as [|n IH];
    intros i; cbn [Pbkdf2.T]; [reflexivity|].
  now rewrite IH, (pbkdf2_F_key_block k1 k2 _ _ _ E).
Qed.

Lemma master_key_of_length (kb salt : bytes) : length (master_key_of kb salt) = 32%nat.
Proof.
  unfold master_key_of, AES_KEY_SIZE.
  exact (pbkdf2_derive_length kb salt PBKDF2_ITERATIONS).
Qed.

Lemma master_key_of_key_block (k1 k2 salt : bytes) :
  Hmac.key_block k1 = Hmac.key_block k2 ->
  master_key_of k1 salt = master_key_of k2 salt.
Proof. intros E. unfold master_key_of. now apply pbkdf2_derive_key_block. Qed.

(* ===================================================================== *)
(** * GCM *)
(* ===================================================================== *)

Lemma keystream_length (key : bytes) (n : nat) (cb : N) :
  length (Gcm.keystream key cb n) = (16 * n)%nat.
Proof.
  revert cb; induction n as [|n IH]; intros cb; cbn [Gcm.keystream]; [reflexivity|].
  rewrite length_app, bytes_of_N_be_length, IH. lia.
Qed.

Lemma nblocks_covers (data : bytes) : (length data <= 16 * Gcm.nblocks data)%nat.
Proof.
  unfold Gcm.nblocks.
  pose proof (Nat.div_mod_eq (length data + 15) 16).
  pose proof (Nat.mod_upper_bound (length data + 15) 16). lia.
Qed.

(** The ciphertext is as long as the plaintext. *)
Lemma gctr_length (key : bytes) (icb : N) (data : bytes) :
  length (Gcm.gctr key icb data) = length data.
Proof.
  unfold Gcm.gctr. apply xor_bytes_length.
  rewrite keystream_length. apply nblocks_covers.
Qed.

(** Counter mode under the same key and counter block undoes itself. *)
Lemma gctr_involutive (key : bytes) (icb : N) (data : bytes) :
  Gcm.gctr key icb (Gcm.gctr key icb data) = data.
Proof.
  unfold Gcm.gctr at 1. unfold Gcm.nblocks. rewrite gctr_length.
  unfold Gcm.gctr. apply xor_bytes_cancel.
  rewrite keystream_length. apply nblocks_covers.
Qed.

Lemma tag_of_length (key iv ct : bytes) : length (Gcm.tag_of key iv ct) = 16%nat.
Proof. unfold Gcm.tag_of. apply bytes_of_N_be_length. Qed.

Lemma gcm_encrypt_ok (key iv data : bytes) :
  length key = 32%nat -> length iv = 16%nat ->
  Gcm.encrypt key iv data =
  Ok (Gcm.gctr key (Gcm.inc32 (Gcm.j0 key iv)) data,
      Gcm.tag_of key iv (Gcm.gctr key (Gcm.inc32 (Gcm.j0 key iv)) data)).
Proof.
  intros Hk Hiv. unfold Gcm.encrypt, Gcm.check_key, Gcm.check_iv.
  rewrite Hk, Hiv. reflexivity.
Qed.

(** With a key, a nonce and a tag of the sizes the module uses, decryption
    releases the plaintext exactly when the tag is the computed one. *)
Lemma gcm_decrypt_spec (key iv tag ct : bytes) :
  length key = 32%nat -> length iv = 16%nat -> length tag = 16%nat ->
  Gcm.decrypt key iv tag ct =
  if bytes_eqb (Gcm.tag_of key iv ct) tag
  then Ok (Gcm.gctr key (Gcm.inc32 (Gcm.j0 key iv)) ct)
  else Raise (Exn InvalidTag "" None).
Proof.
  intros Hk Hiv Ht. unfold Gcm.decrypt, Gcm.check_key, Gcm.check_iv, Gcm.check_tag.
  rewrite Hk, Hiv, Ht. reflexivity.
Qed.

(** From here on the primitives are used through the lemmas above. *)
Opaque Pbkdf2.derive Gcm.tag_of Gcm.gctr Gcm.j0 Gcm.inc32
       Base64.b64encode Base64.b64decode.

(* ===================================================================== *)
(** * The envelope *)
(* ===================================================================== *)

Lemma token_bytes_length (n : nat) (rng : entropy) :
  length (fst (token_bytes n rng)) = n.
Proof. unfold token_bytes. cbn [fst]. now rewrite length_map, length_seq. Qed.

Lemma drawn_salt_length (rng : entropy) : length (drawn_salt rng) = 32%nat.
Proof. apply token_bytes_length. Qed.

Lemma drawn_iv_length (rng : entropy) : length (drawn_iv rng) = 16%nat.
Proof. apply token_bytes_length. Qed.

Lemma sealed_tag_length (kb pb salt iv : bytes) :
  length (sealed_tag kb pb salt iv) = 16%nat.
Proof. unfold sealed_tag. apply tag_of_length. Qed.

Lemma sealed_ciphertext_length (kb pb salt iv : bytes) :
  length (sealed_ciphertext kb pb salt iv) = length pb.
Proof. unfold sealed_ciphertext. apply gctr_length. Qed.

Section Segments.

Variables salt iv tag ct : bytes.
Hypothesis Hsalt : length salt = 32%nat.
Hypothesis Hiv : length iv = 16%nat.
Hypothesis Htag : length tag = 16%nat.

Lemma envelope_salt_app : envelope_salt (salt ++ iv ++ tag ++ ct) = salt.
Proof.
  unfold envelope_salt, SALT_SIZE. rewrite <- Hsalt.
  rewrite firstn_app, firstn_all, Nat.sub_diag. cbn [firstn]. apply app_nil_r.
Qed.

Lemma envelope_iv_app : envelope_iv (salt ++ iv ++ tag ++ ct) = iv.
Proof.
  unfold envelope_iv, slice, SALT_SIZE, IV_SIZE. rewrite <- Hsalt at 1.
  rewrite skipn_app, skipn_all, Nat.sub_diag. cbn [skipn app]. rewrite <- Hiv.
  rewrite firstn_app, firstn_all, Nat.sub_diag. cbn [firstn]. apply app_nil_r.
Qed.

Lemma envelope_tag_app : envelope_tag (salt ++ iv ++ tag ++ ct) = tag.
Proof.
  unfold envelope_tag, slice.
  replace (salt ++ iv ++ tag ++ ct) with ((salt ++ iv) ++ tag ++ ct)
    by now rewrite <- app_assoc.
  replace (SALT_SIZE + IV_SIZE)%nat with (length (salt ++ iv))
    by (rewrite length_app, Hsalt, Hiv; reflexivity).
  rewrite skipn_app, skipn_all, Nat.sub_diag. cbn [skipn app].
  unfold TAG_SIZE. rewrite <- Htag.
  rewrite firstn_app, firstn_all, Nat.sub_diag. cbn [firstn]. apply app_nil_r.
Qed.

Lemma envelope_ciphertext_app : envelope_ciphertext (salt ++ iv ++ tag ++ ct) = ct.
Proof.
  unfold envelope_ciphertext.
  replace (salt ++ iv ++ tag ++ ct) with ((salt ++ iv ++ tag) ++ ct)
    by now rewrite <- !app_assoc.
  replace (SALT_SIZE + IV_SIZE + TAG_SIZE)%nat with (length (salt ++ iv ++ tag))
    by (rewrite !length_app, Hsalt, Hiv, Htag; reflexivity).
  rewrite skipn_app, skipn_all, Nat.sub_diag. reflexivity.
Qed.

Lemma envelope_length_app :
  length (salt ++ iv ++ tag ++ ct) = (64 + length ct)%nat.
Proof. rewrite !length_app, Hsalt, Hiv, Htag. lia. Qed.

End Segments.

Lemma envelope_iv_length (data : bytes) :
  (64 <= length data)%nat -> length (envelope_iv data) = 16%nat.
Proof.
  intros H. unfold envelope_iv, slice, SALT_SIZE, IV_SIZE.
  rewrite length_firstn, length_skipn. lia.
Qed.

Lemma envelope_tag_length (data : bytes) :
  (64 <= length data)%nat -> length (envelope_tag data) = 16%nat.
Proof.
  intros H. unfold envelope_tag, slice, SALT_SIZE, IV_SIZE, TAG_SIZE.
  rewrite length_firstn, length_skipn. lia.
Qed.

Lemma sealed_data_length (kb pb salt iv : bytes) :
  length salt = 32%nat -> length iv = 16%nat ->
  length (sealed_data kb pb salt iv) = (64 + length pb)%nat.
Proof.
  intros Hs Hi. unfold sealed_data.
  rewrite (envelope_length_app salt iv (sealed_tag kb pb salt iv)
             (sealed_ciphertext kb pb salt iv) Hs Hi (sealed_tag_length kb pb salt iv)).
  now rewrite sealed_ciphertext_length.
Qed.

(** The tag of a sealed envelope verifies under the key that sealed it. *)
Lemma sealed_data_verifies (kb pb salt iv : bytes) :
  length salt = 32%nat -> length iv = 16%nat ->
  tag_verifies kb (sealed_data kb pb salt iv) = true.
Proof.
  intros Hs Hi. unfold tag_verifies, sealed_data.
  pose proof (sealed_tag_length kb pb salt iv) as Ht.
  set (tag := sealed_tag kb pb salt iv) in *.
  set (ct := sealed_ciphertext kb pb salt iv).
  rewrite (envelope_salt_app salt iv tag ct Hs), (envelope_iv_app salt iv tag ct Hs Hi),
    (envelope_tag_app salt iv tag ct Hs Hi Ht),
    (envelope_ciphertext_app salt iv tag ct Hs Hi Ht).
  apply bytes_eqb_refl.
Qed.

Lemma sealed_data_opens (kb pb salt iv : bytes) :
  length salt = 32%nat -> length iv = 16%nat ->
  opened_bytes kb (sealed_data kb pb salt iv) = pb.
Proof.
  intros Hs Hi. unfold opened_bytes, sealed_data.
  pose proof (sealed_tag_length kb pb salt iv) as Ht.
  set (tag := sealed_tag kb pb salt iv) in *.
  set (ct := sealed_ciphertext kb pb salt iv).
  rewrite (envelope_salt_app salt iv tag ct Hs), (envelope_iv_app salt iv tag ct Hs Hi),
    (envelope_ciphertext_app salt iv tag ct Hs Hi Ht).
  unfold ct, sealed_ciphertext. cbv zeta. apply gctr_involutive.
Qed.

Lemma envelope_text_decode (data : bytes) :
  Utf8.decode (Base64.b64encode data) = Ok (envelope_of data).
Proof.
  unfold Utf8.decode. now rewrite (decode_ascii _ (b64encode_ascii data)).
Qed.

Lemma envelope_text_encode (data : bytes) :
  Utf8.encode (envelope_of data) = Ok (Base64.b64encode data).
Proof.
  unfold Utf8.encode, envelope_of. now rewrite (encode_ascii _ (b64encode_ascii data)).
Qed.

(* ===================================================================== *)
(** * [derive_key_from_master], [encrypt_password], [decrypt_password] *)
(* ===================================================================== *)

Lemma envelope_of_nonempty (data : bytes) :
  data <> [] -> is_empty (envelope_of data) = false.
Proof.
  destruct data as [|x [|y [|z r]]]; [congruence|reflexivity..].
Qed.

Lemma derive_key_from_master_ok (K : str) (kb salt : bytes) :
  is_empty K = false -> Utf8.encode K = Ok kb ->
  derive_key_from_master K salt = Ok (master_key_of kb salt).
Proof. intros HK E. unfold derive_key_from_master. rewrite HK, E. reflexivity. Qed.

Lemma derive_key_from_master_fails (K : str) (e : exn) (salt : bytes) :
  is_empty K = false -> Utf8.encode K = Raise e ->
  derive_key_from_master K salt = Raise (key_derivation_error e).
Proof. intros HK E. unfold derive_key_from_master. rewrite HK, E. reflexivity. Qed.

(** [encrypt_password] on inputs that are not empty and that encode. *)
Lemma encrypt_password_ok (P K : str) (pb kb : bytes) (rng : entropy) :
  is_empty P = false -> is_empty K = false ->
  Utf8.encode P = Ok pb -> Utf8.encode K = Ok kb ->
  encrypt_password P K rng =
  (Ok (envelope_of (sealed_data kb pb (drawn_salt rng) (drawn_iv rng))),
   after_draws rng).
Proof.
  intros HP HK EP EK. unfold encrypt_password. rewrite HP, HK.
  unfold after_draws.
  pose proof (drawn_iv_length rng) as Hiv. unfold drawn_iv in *.
  pose proof (drawn_salt_length rng) as Hsalt.
  unfold sealed_data, sealed_tag, sealed_ciphertext, drawn_salt in *.
  destruct (token_bytes SALT_SIZE rng) as [salt rng1]. cbn [fst snd] in *.
  destruct (token_bytes IV_SIZE rng1) as [iv rng2]. cbn [fst snd] in *.
  rewrite (derive_key_from_master_ok K kb salt HK EK). cbn [bind]. rewrite EP. cbn [bind].
  rewrite (gcm_encrypt_ok (master_key_of kb salt) iv pb (master_key_of_length kb salt) Hiv).
  cbn [bind].
  rewrite envelope_text_decode. reflexivity.
Qed.

(** [encrypt_password] returns an envelope only for such inputs. *)
Lemma encrypt_password_accepts (P K : str) (rng : entropy) (env : str) :
  fst (encrypt_password P K rng) = Ok env ->
  is_empty P = false /\ is_empty K = false /\
  exists pb kb, Utf8.encode P = Ok pb /\ Utf8.encode K = Ok kb.
Proof.
  unfold encrypt_password.
  destruct (is_empty P) eqn:HP; [discriminate|].
  destruct (is_empty K) eqn:HK; [discriminate|].
  destruct (token_bytes SALT_SIZE rng) as [salt rng1].
  destruct (token_bytes IV_SIZE rng1) as [iv rng2]. cbn [fst].
  destruct (Utf8.encode K) as [kb|e] eqn:EK.
  - rewrite (derive_key_from_master_ok K kb salt HK EK). cbn [bind].
    destruct (Utf8.encode P) as [pb|e] eqn:EP.
    + intros _. split_and; eauto.
    + cbn [bind except_Exception]. discriminate.
  - rewrite (derive_key_from_master_fails K e salt HK EK).
    cbn [bind except_Exception]. discriminate.
Qed.

(** [decrypt_password] on a text that decodes to fewer than 64 bytes. *)
Lemma decrypt_password_short (env K : str) (encoded data : bytes) :
  is_empty env = false -> is_empty K = false ->
  Utf8.encode env = Ok encoded -> Base64.b64decode encoded = Ok data ->
  (length data < 64)%nat ->
  decrypt_password env K = Raise malformed_envelope_error.
Proof.
  intros Henv HK Eenv Edata Hlen. unfold decrypt_password.
  rewrite Henv, HK, Eenv. cbn [bind]. rewrite Edata. cbn [bind].
  destruct (Nat.ltb_spec (length data) (SALT_SIZE + IV_SIZE + TAG_SIZE)) as [_|Hge];
    [reflexivity|].
  exfalso. revert Hlen. apply Nat.le_ngt. exact Hge.
Qed.

(** [decrypt_password] on a text that decodes to at least 64 bytes, with a
    master key that encodes. *)
Lemma decrypt_password_decoded (env K : str) (encoded data kb : bytes) :
  is_empty env = false -> is_empty K = false ->
  Utf8.encode env = Ok encoded -> Base64.b64decode encoded = Ok data ->
  (64 <= length data)%nat -> Utf8.encode K = Ok kb ->
  decrypt_password env K =
  if tag_verifies kb data
  then except_ValueError_Exception
         "Invalid encrypted password data" "Password decryption failed"
         (Utf8.decode (opened_bytes kb data))
  else Raise authentication_error.
Proof.
  intros Henv HK Eenv Edata Hlen EK. unfold decrypt_password.
  rewrite Henv, HK, Eenv. cbn [bind]. rewrite Edata. cbn [bind].
  destruct (Nat.ltb_spec (length data) (SALT_SIZE + IV_SIZE + TAG_SIZE)) as [Hlt|_];
    [exfalso; revert Hlt; apply Nat.le_ngt; exact Hlen|].
  rewrite (derive_key_from_master_ok K kb (firstn SALT_SIZE data) HK EK). cbn [bind].
  fold (envelope_salt data) (envelope_iv data) (envelope_tag data)
       (envelope_ciphertext data).
  rewrite (gcm_decrypt_spec (master_key_of kb (envelope_salt data)) (envelope_iv data)
             (envelope_tag data) (envelope_ciphertext data)
             (master_key_of_length kb (envelope_salt data))
             (envelope_iv_length data Hlen) (envelope_tag_length data Hlen)).
  unfold tag_verifies, opened_bytes. cbv zeta.
  destruct (bytes_eqb _ _); reflexivity.
Qed.

(** [decrypt_password] on a text that decodes to at least 64 bytes, with a
    master key that does not encode. *)
Lemma decrypt_password_bad_key (env K : str) (encoded data : bytes) (e : exn) :
  is_empty env = false -> is_empty K = false ->
  Utf8.encode env = Ok encoded -> Base64.b64decode encoded = Ok data ->
  (64 <= length data)%nat -> Utf8.encode K = Raise e ->
  decrypt_password env K =
  Raise (Exn RuntimeError "Password decryption failed" (Some (key_derivation_error e))).
Proof.
  intros Henv HK Eenv Edata Hlen EK. unfold decrypt_password.
  rewrite Henv, HK, Eenv. cbn [bind]. rewrite Edata. cbn [bind].
  destruct (Nat.ltb_spec (length data) (SALT_SIZE + IV_SIZE + TAG_SIZE)) as [Hlt|_];
    [exfalso; revert Hlt; apply Nat.le_ngt; exact Hlen|].
  rewrite (derive_key_from_master_fails K e (firstn SALT_SIZE data) HK EK). reflexivity.
Qed.

Lemma decrypt_password_envelope (data : bytes) (K : str) (kb : bytes) :
  (64 <= length data)%nat -> is_empty K = false -> Utf8.encode K = Ok kb ->
  decrypt_password (envelope_of data) K =
  if tag_verifies kb data
  then except_ValueError_Exception
         "Invalid encrypted password data" "Password decryption failed"
         (Utf8.decode (opened_bytes kb data))
  else Raise authentication_error.
Proof.
  intros Hlen HK EK.
  refine (decrypt_password_decoded _ K (Base64.b64encode data) data kb _ HK
            (envelope_text_encode data) (b64decode_b64encode data) Hlen EK).
  apply envelope_of_nonempty. destruct data; [simpl in Hlen; lia|congruence].
Qed.

(** Decryption of a sealed envelope under the key that sealed it. *)
Lemma decrypt_password_sealed (P K : str) (pb kb salt iv : bytes) :
  is_empty K = false -> Utf8.encode P = Ok pb -> Utf8.encode K = Ok kb ->
  length salt = 32%nat -> length iv = 16%nat ->
  decrypt_password (envelope_of (sealed_data kb pb salt iv)) K = Ok P.
Proof.
  intros HK EP EK Hs Hi.
  assert (Hlen : (64 <= length (sealed_data kb pb salt iv))%nat)
    by (rewrite (sealed_data_length kb pb salt iv Hs Hi); lia).
  rewrite (decrypt_password_envelope (sealed_data kb pb salt iv) K kb Hlen HK EK).
  rewrite (sealed_data_verifies kb pb salt iv Hs Hi),
    (sealed_data_opens kb pb salt iv Hs Hi).
  now rewrite (utf8_decode_encode _ _ EP).
Qed.

(** An error of the decoding of the plaintext is not the authentication
    error. *)
Lemma handled_decode_not_authentication_error (bs : bytes) :
  except_ValueError_Exception
    "Invalid encrypted password data" "Password decryption failed"
    (Utf8.decode bs) <> Raise authentication_error.
Proof.
  unfold Utf8.decode. destruct (Utf8.decode_chars bs); cbn; discriminate.
Qed.

(** Master keys with the same HMAC key block open the same envelopes. *)
Lemma decrypt_password_key_block (data : bytes) (K1 K2 : str) (k1 k2 : bytes) :
  (64 <= length data)%nat ->
  is_empty K1 = false -> is_empty K2 = false ->
  Utf8.encode K1 = Ok k1 -> Utf8.encode K2 = Ok k2 ->
  Hmac.key_block k1 = Hmac.key_block k2 ->
  decrypt_password (envelope_of data) K1 = decrypt_password (envelope_of data) K2.
Proof.
  intros Hlen H1 H2 E1 E2 E.
  rewrite (decrypt_password_envelope data K1 k1 Hlen H1 E1),
    (decrypt_password_envelope data K2 k2 Hlen H2 E2).
  unfold tag_verifies, opened_bytes.
  now rewrite (master_key_of_key_block k1 k2 (envelope_salt data) E).
Qed.

(** An envelope whose tag is not the one of its ciphertext is refused with
    the authentication error: a change of the tag of a valid envelope is
    always detected. *)
Lemma modified_tag_rejected (K : str) (kb salt iv tag tag' ct : bytes) :
  is_empty K = false -> Utf8.encode K = Ok kb ->
  length salt = 32%nat -> length iv = 16%nat ->
  length tag = 16%nat -> length tag' = 16%nat ->
  tag_verifies kb (salt ++ iv ++ tag ++ ct) = true -> tag' <> tag ->
  decrypt_password (envelope_of (salt ++ iv ++ tag' ++ ct)) K
  = Raise authentication_error.
Proof.
  intros HK EK Hs Hi Ht Ht' V Hne.
  assert (Hlen : (64 <= length (salt ++ iv ++ tag' ++ ct))%nat)
    by (rewrite (envelope_length_app salt iv tag' ct Hs Hi Ht'); lia).
  rewrite (decrypt_password_envelope (salt ++ iv ++ tag' ++ ct) K kb Hlen HK EK).
  unfold tag_verifies in *.
  rewrite (envelope_salt_app salt iv tag ct Hs), (envelope_iv_app salt iv tag ct Hs Hi),
    (envelope_tag_app salt iv tag ct Hs Hi Ht),
    (envelope_ciphertext_app salt iv tag ct Hs Hi Ht) in V.
  rewrite (envelope_salt_app salt iv tag' ct Hs), (envelope_iv_app salt iv tag' ct Hs Hi),
    (envelope_tag_app salt iv tag' ct Hs Hi Ht'),
    (envelope_ciphertext_app salt iv tag' ct Hs Hi Ht').
  apply bytes_eqb_eq in V. rewrite V.
  rewrite bytes_eqb_neq; [reflexivity|congruence].
Qed.

(** An envelope with another ciphertext is refused with the authentication
    error exactly when the tag of that ciphertext is not the tag it
    carries. *)
Lemma modified_ciphertext_rejected_iff (K : str) (kb salt iv tag ct' : bytes) :
  is_empty K = false -> Utf8.encode K = Ok kb ->
  length salt = 32%nat -> length iv = 16%nat -> length tag = 16%nat ->
  decrypt_password (envelope_of (salt ++ iv ++ tag ++ ct')) K = Raise authentication_error
  <-> Gcm.tag_of (master_key_of kb salt) iv ct' <> tag.
Proof.
  intros HK EK Hs Hi Ht.
  assert (Hlen : (64 <= length (salt ++ iv ++ tag ++ ct'))%nat)
    by (rewrite (envelope_length_app salt iv tag ct' Hs Hi Ht); lia).
  rewrite (decrypt_password_envelope (salt ++ iv ++ tag ++ ct') K kb Hlen HK EK).
  unfold tag_verifies.
  rewrite (envelope_salt_app salt iv tag ct' Hs), (envelope_iv_app salt iv tag ct' Hs Hi),
    (envelope_tag_app salt iv tag ct' Hs Hi Ht),
    (envelope_ciphertext_app salt iv tag ct' Hs Hi Ht).
  unfold bytes_eqb.
  destruct (list_eq_dec Byte.byte_eq_dec (Gcm.tag_of (master_key_of kb salt) iv ct') tag)
    as [E|E]; split; try congruence.
  intros H. exfalso. exact (handled_decode_not_authentication_error _ H).
Qed.

(** Every error raised inside the [try] of [decrypt_password] leaves the
    function with a cause; the errors of the guards before it have none. *)
Lemma decrypt_password_try_errors_have_cause (env K : str) (e : exn) :
  is_empty env = false -> is_empty K = false ->
  decrypt_password env K = Raise e -> exn_cause e <> None.
Proof.
  intros Henv HK. unfold decrypt_password. rewrite Henv, HK.
  unfold except_ValueError_Exception.
  match goal with |- match ?b with _ => _ end = _ -> _ => destruct b as [s|e'] end;
    [discriminate|].
  destruct (is_ValueError (exn_cls e')); intros [= <-]; discriminate.
Qed.

(** [decrypt_password] on at least 64 decoded bytes never raises through
    the length check. *)
Lemma decrypt_password_long_not_malformed (env K : str) (encoded data : bytes) :
  Utf8.encode env = Ok encoded -> Base64.b64decode encoded = Ok data ->
  (64 <= length data)%nat ->
  forall e, decrypt_password env K = Raise e ->
            exn_cause e <> Some (Exn ValueError "Invalid encrypted data format" None).
Proof.
  intros Eenv Edata Hlen e.
  destruct (is_empty env) eqn:Henv.
  { unfold decrypt_password. rewrite Henv. intros [= <-]. discriminate. }
  destruct (is_empty K) eqn:HK.
  { unfold decrypt_password. rewrite Henv, HK. intros [= <-]. discriminate. }
  destruct (Utf8.encode K) as [kb|e0] eqn:EK.
  - rewrite (decrypt_password_decoded env K encoded data kb) by assumption.
    destruct (tag_verifies kb data).
    + unfold Utf8.decode. destruct (Utf8.decode_chars _); cbn; [discriminate|].
      intros [= <-]. discriminate.
    + intros [= <-]. discriminate.
  - rewrite (decrypt_password_bad_key env K encoded data e0) by assumption.
    intros [= <-]. discriminate.
Qed.

(* ===================================================================== *)
(** * [change_password_encryption] *)
(* ===================================================================== *)

Lemma change_password_encryption_ok (env oldK newK P : str) (pb kb : bytes)
    (rng : entropy) :
  decrypt_password env oldK = Ok P ->
  is_empty P = false -> is_empty newK = false ->
  Utf8.encode P = Ok pb -> Utf8.encode newK = Ok kb ->
  change_password_encryption env oldK newK rng =
  (Ok (envelope_of (sealed_data kb pb (drawn_salt rng) (drawn_iv rng))),
   after_draws rng).
Proof.
  intros D HP HK EP EK. unfold change_password_encryption. rewrite D.
  rewrite (encrypt_password_ok P newK pb kb rng HP HK EP EK). reflexivity.
Qed.

(** What the rotation of a freshly sealed envelope yields. *)
Lemma rotation_gen (P keyA keyB : str) (pb kbA kbB : bytes) (rng1 rng2 : entropy) :
  is_empty P = false -> is_empty keyA = false -> is_empty keyB = false ->
  Utf8.encode P = Ok pb -> Utf8.encode keyA = Ok kbA -> Utf8.encode keyB = Ok kbB ->
  let env := envelope_of (sealed_data kbA pb (drawn_salt rng1) (drawn_iv rng1)) in
  let data' := sealed_data kbB pb (drawn_salt rng2) (drawn_iv rng2) in
  fst (encrypt_password P keyA rng1) = Ok env /\
  fst (change_password_encryption env keyA keyB rng2) = Ok (envelope_of data') /\
  (64 <= length data')%nat /\
  decrypt_password (envelope_of data') keyB = Ok P.
Proof.
  intros HP HA HB EP EA EB env data'.
  assert (D : decrypt_password env keyA = Ok P).
  { exact (decrypt_password_sealed P keyA pb kbA (drawn_salt rng1) (drawn_iv rng1)
             HA EP EA (drawn_salt_length rng1) (drawn_iv_length rng1)). }
  split_and.
  - now rewrite (encrypt_password_ok P keyA pb kbA rng1 HP HA EP EA).
  - now rewrite (change_password_encryption_ok env keyA keyB P pb kbB rng2 D HP HB EP EB).
  - unfold data'.
    rewrite (sealed_data_length kbB pb (drawn_salt rng2) (drawn_iv rng2)
               (drawn_salt_length rng2) (drawn_iv_length rng2)).
    lia.
  - exact (decrypt_password_sealed P keyB pb kbB (drawn_salt rng2) (drawn_iv rng2)
             HB EP EB (drawn_salt_length rng2) (drawn_iv_length rng2)).
Qed.

Lemma sample_key_encode : Utf8.encode sample_key = Ok sample_key_bytes.
Proof. vm_compute. reflexivity. Qed.

Lemma sample_plaintext_encode : Utf8.encode sample_plaintext = Ok sample_plaintext_bytes.
Proof. vm_compute. reflexivity. Qed.

Lemma lone_surrogate_encode :
  Utf8.encode lone_surrogate
  = Raise (Exn UnicodeEncodeError "'utf-8' codec can't encode character" None).
Proof. vm_compute. reflexivity. Qed.

(* ===================================================================== *)
(** * The round trip (C1) *)
(* ===================================================================== *)

(** Claim C1 as stated fails. A master key or a plaintext that holds a
    lone surrogate is a non-empty [str], yet [encrypt_password] raises on
    it ([str.encode] refuses the surrogate), so there is no envelope to
    decrypt. *)
Lemma round_trip_fails_on_surrogates :
  sample_plaintext <> [] /\ sample_key <> [] /\ lone_surrogate <> [] /\
  ~ round_trips sample_plaintext lone_surrogate zero_entropy /\
  ~ round_trips lone_surrogate sample_key zero_entropy.
Proof.
  split_and; try discriminate.
  - intros [env [H _]]. apply encrypt_password_accepts in H.
    destruct H as (_ & _ & pb & kb & _ & EK).
    rewrite lone_surrogate_encode in EK. discriminate EK.
  - intros [env [H _]]. apply encrypt_password_accepts in H.
    destruct H as (_ & _ & pb & kb & EP & _).
    rewrite lone_surrogate_encode in EP. discriminate EP.
Qed.

(** Claim C1, amended: for every non-empty plaintext [P] and every
    non-empty master key [K] that hold no surrogate code point, and for
    every salt and nonce drawn, [encrypt_password P K] returns an envelope
    and [decrypt_password] of that envelope under [K] returns [P]. *)
Theorem encrypt_decrypt_round_trip (P K : str) (rng : entropy) :
  P <> [] -> K <> [] -> utf8_encodable P = true -> utf8_encodable K = true ->
  round_trips P K rng.
Proof.
  intros HP HK WP WK.
  destruct (utf8_encodable_encode P WP) as [pb EP].
  destruct (utf8_encodable_encode K WK) as [kb EK].
  apply is_empty_false in HP, HK.
  exists (envelope_of (sealed_data kb pb (drawn_salt rng) (drawn_iv rng))). split.
  - now rewrite (encrypt_password_ok P K pb kb rng HP HK EP EK).
  - exact (decrypt_password_sealed P K pb kb (drawn_salt rng) (drawn_iv rng)
             HK EP EK (drawn_salt_length rng) (drawn_iv_length rng)).
Qed.

Lemma encrypt_decrypt_round_trip_witness :
  round_trips (str_of_string "P@ssw0rd!") (str_of_string "master_key_for_testing")
              zero_entropy.
Proof.
  apply encrypt_decrypt_round_trip;
    [discriminate | discriminate | reflexivity | reflexivity].
Defined.

(* ===================================================================== *)
(** * The layout of the envelope (C2) *)
(* ===================================================================== *)

(** The layout leaves no freedom: for a plaintext, a master key and an
    entropy source there is at most one envelope of this layout. *)
Lemma envelope_layout_unique (P K : str) (rng : entropy) (env1 env2 : str) :
  envelope_layout P K rng env1 -> envelope_layout P K rng env2 -> env1 = env2.
Proof.
  intros (pb1 & key1 & salt1 & iv1 & tag1 & ct1 & EP1 & -> & -> & D1 & G1 & _ & _ & _ & _
          & -> & _)
         (pb2 & key2 & salt2 & iv2 & tag2 & ct2 & EP2 & -> & -> & D2 & G2 & _ & _ & _ & _
          & -> & _).
  rewrite EP1 in EP2. apply Ok_inj in EP2. subst pb2.
  rewrite D1 in D2. apply Ok_inj in D2. subst key2.
  rewrite G1 in G2. apply Ok_inj in G2.
  assert (Ec : ct1 = ct2) by exact (f_equal fst G2).
  assert (Et : tag1 = tag2) by exact (f_equal snd G2).
  now rewrite Ec, Et.
Qed.




(* ===================================================================== *)
(** * Envelopes that are too short (C3) *)
(* ===================================================================== *)

(** Claim C3 as stated fails. The text ["QUJD"] decodes to three bytes,
    fewer than 64, but with an empty master key [decrypt_password] raises
    the error of its guard, not the one of the length check. *)
Lemma short_envelope_with_empty_key :
  Utf8.encode (str_of_string "QUJD") = Ok (list_byte_of_string "QUJD") /\
  Base64.b64decode (list_byte_of_string "QUJD") = Ok (list_byte_of_string "ABC") /\
  (length (list_byte_of_string "ABC") < 64)%nat /\
  decrypt_password (str_of_string "QUJD") [] = Raise empty_master_key_error /\
  decrypt_password (str_of_string "QUJD") [] <> Raise malformed_envelope_error.
Proof.
  split_and; try (vm_compute; reflexivity).
  - vm_compute. lia.
  - vm_compute. discriminate.
Qed.

(** Claim C3, amended: for an envelope text that decodes to fewer than 64
    bytes, [decrypt_password] raises [ValueError("Invalid encrypted
    password data")], caused by the [ValueError] of the length check,
    whenever the text and the master key are not empty; in every case it
    raises some [ValueError]. For a text that decodes to at least 64 bytes
    the branch of the length check is not taken: no error of
    [decrypt_password] has that [ValueError] as its cause. *)
Theorem short_envelope_is_malformed (env K : str) (encoded data : bytes) :
  Utf8.encode env = Ok encoded -> Base64.b64decode encoded = Ok data ->
  ((length data < 64)%nat -> env <> [] -> K <> [] ->
   decrypt_password env K = Raise malformed_envelope_error) /\
  ((length data < 64)%nat ->
   exists e, decrypt_password env K = Raise e /\ exn_cls e = ValueError) /\
  ((64 <= length data)%nat ->
   forall e, decrypt_password env K = Raise e ->
             exn_cause e <> Some (Exn ValueError "Invalid encrypted data format" None)).
Proof.
  intros Eenv Edata. split; [|split].
  - intros Hlen Henv HK. apply is_empty_false in Henv, HK.
    exact (decrypt_password_short env K encoded data Henv HK Eenv Edata Hlen).
  - intros Hlen.
    destruct (is_empty env) eqn:Henv.
    { unfold decrypt_password. rewrite Henv. eauto. }
    destruct (is_empty K) eqn:HK.
    { unfold decrypt_password. rewrite Henv, HK. eauto. }
    rewrite (decrypt_password_short env K encoded data Henv HK Eenv Edata Hlen).
    unfold malformed_envelope_error. eauto.
  - intros Hlen.
    exact (decrypt_password_long_not_malformed env K encoded data Eenv Edata Hlen).
Qed.

Lemma short_envelope_is_malformed_witness :
  decrypt_password (str_of_string "QUJD") sample_key = Raise malformed_envelope_error.
Proof.
  refine (proj1 (short_envelope_is_malformed (str_of_string "QUJD") sample_key
                   (list_byte_of_string "QUJD") (list_byte_of_string "ABC") _ _) _ _ _).
  - vm_compute. reflexivity.
  - vm_compute. reflexivity.
  - vm_compute. lia.
  - discriminate.
  - discriminate.
Defined.

(* ===================================================================== *)
(** * Rotation (C5, C6) *)
(* ===================================================================== *)

(** Claim C5 as stated fails. The master keys ["a"] and ["a\x00"] are
    distinct and not empty, but HMAC fills both with zero bytes to the same
    key block, so both derive the same key from every salt: an envelope
    rotated from ["a"] to ["a\x00"] still decrypts under ["a"]. *)
Lemma rotated_envelope_opens_with_old_key :
  key_a <> [] /\ key_a_nul <> [] /\ key_a <> key_a_nul /\ sample_plaintext <> [] /\
  exists env env',
    fst (encrypt_password sample_plaintext key_a zero_entropy) = Ok env /\
    fst (change_password_encryption env key_a key_a_nul zero_entropy) = Ok env' /\
    decrypt_password env' key_a_nul = Ok sample_plaintext /\
    decrypt_password env' key_a = Ok sample_plaintext.
Proof.
  split_and; try discriminate.
  assert (EA : Utf8.encode key_a = Ok [Byte.x61]) by (vm_compute; reflexivity).
  assert (EB : Utf8.encode key_a_nul = Ok [Byte.x61; Byte.x00])
    by (vm_compute; reflexivity).
  destruct (rotation_gen sample_plaintext key_a key_a_nul sample_plaintext_bytes
              [Byte.x61] [Byte.x61; Byte.x00] zero_entropy zero_entropy
              eq_refl eq_refl eq_refl sample_plaintext_encode EA EB)
    as (H1 & H2 & H3 & H4).
  eexists. eexists. split_and; [exact H1 | exact H2 | exact H4 |].
  rewrite (decrypt_password_key_block _ key_a key_a_nul [Byte.x61] [Byte.x61; Byte.x00]
             H3 eq_refl eq_refl EA EB); [exact H4|].
  vm_compute. reflexivity.
Qed.

(** Claim C5, amended: for every non-empty plaintext [P] and non-empty
    master keys [keyA] and [keyB] without surrogate code points, the
    envelope that [change_password_encryption] returns for
    [encrypt_password P keyA] decrypts under [keyB] to [P]. Under [keyA] it
    fails with the authentication error exactly when its tag does not
    verify under the key derived from [keyA]; when the two master keys
    have the same HMAC key block it decrypts to [P] under [keyA] too. *)
Theorem rotation_moves_envelope_to_new_key (P keyA keyB : str) (rng1 rng2 : entropy) :
  P <> [] -> keyA <> [] -> keyB <> [] ->
  utf8_encodable P = true -> utf8_encodable keyA = true -> utf8_encodable keyB = true ->
  exists env data' kbA kbB,
    Utf8.encode keyA = Ok kbA /\ Utf8.encode keyB = Ok kbB /\
    fst (encrypt_password P keyA rng1) = Ok env /\
    fst (change_password_encryption env keyA keyB rng2) = Ok (envelope_of data') /\
    decrypt_password (envelope_of data') keyB = Ok P /\
    (decrypt_password (envelope_of data') keyA = Raise authentication_error
     <-> tag_verifies kbA data' = false) /\
    (Hmac.key_block kbA = Hmac.key_block kbB ->
     decrypt_password (envelope_of data') keyA = Ok P).
Proof.
  intros HP HA HB WP WA WB.
  destruct (utf8_encodable_encode P WP) as [pb EP].
  destruct (utf8_encodable_encode keyA WA) as [kbA EA].
  destruct (utf8_encodable_encode keyB WB) as [kbB EB].
  apply is_empty_false in HP, HA, HB.
  destruct (rotation_gen P keyA keyB pb kbA kbB rng1 rng2 HP HA HB EP EA EB)
    as (H1 & H2 & H3 & H4).
  set (data' := sealed_data kbB pb (drawn_salt rng2) (drawn_iv rng2)) in *.
  exists (envelope_of (sealed_data kbA pb (drawn_salt rng1) (drawn_iv rng1))),
    data', kbA, kbB.
  split_and; try assumption.
  - rewrite (decrypt_password_envelope data' keyA kbA H3 HA EA).
    destruct (tag_verifies kbA data'); split; try congruence.
    intros H. exfalso. exact (handled_decode_not_authentication_error _ H).
  - intros E.
    rewrite (decrypt_password_key_block data' keyA keyB kbA kbB H3 HA HB EA EB E).
    exact H4.
Qed.

Lemma rotation_moves_envelope_to_new_key_witness :
  exists env data' kbA kbB,
    Utf8.encode key_a = Ok kbA /\ Utf8.encode key_a_nul = Ok kbB /\
    fst (encrypt_password sample_plaintext key_a zero_entropy) = Ok env /\
    fst (change_password_encryption env key_a key_a_nul zero_entropy)
      = Ok (envelope_of data') /\
    decrypt_password (envelope_of data') key_a_nul = Ok sample_plaintext /\
    (decrypt_password (envelope_of data') key_a = Raise authentication_error
     <-> tag_verifies kbA data' = false) /\
    (Hmac.key_block kbA = Hmac.key_block kbB ->
     decrypt_password (envelope_of data') key_a = Ok sample_plaintext).
Proof.
  apply rotation_moves_envelope_to_new_key;
    [discriminate | discriminate | discriminate
    | reflexivity | reflexivity | reflexivity].
Defined.

(** Claim C6 as stated fails. On an empty envelope [decrypt_password]
    raises the [ValueError] of its guard, while
    [change_password_encryption] raises a [RuntimeError] with another
    message, which only carries that [ValueError] as its cause. *)
Lemma rotation_changes_the_error :
  decrypt_password [] sample_key = Raise empty_envelope_error /\
  fst (change_password_encryption [] sample_key key_a zero_entropy)
    = Raise (reencryption_error empty_envelope_error) /\
  signal (reencryption_error empty_envelope_error) <> signal empty_envelope_error.
Proof. split_and; try reflexivity. discriminate. Qed.

(** Claim C6, amended: when the decryption inside
    [change_password_encryption] fails, or it succeeds and the encryption
    fails, the function raises [RuntimeError("Password re-encryption
    failed")] whose cause is the error of the operation that failed first;
    when the decryption fails nothing is drawn from the entropy source. *)
Theorem rotation_wraps_the_first_error (env oldK newK : str) (rng : entropy) :
  (forall e, decrypt_password env oldK = Raise e ->
     change_password_encryption env oldK newK rng
     = (Raise (reencryption_error e), rng)) /\
  (forall P e, decrypt_password env oldK = Ok P ->
     fst (encrypt_password P newK rng) = Raise e ->
     fst (change_password_encryption env oldK newK rng)
     = Raise (reencryption_error e)).
Proof.
  unfold change_password_encryption. split.
  - intros e ->. reflexivity.
  - intros P e -> H.
    destruct (encrypt_password P newK rng) as [r rng']. cbn [fst] in *. now subst r.
Qed.

Lemma rotation_wraps_the_first_error_witness :
  change_password_encryption [] sample_key key_a zero_entropy
    = (Raise (reencryption_error empty_envelope_error), zero_entropy) /\
  fst (change_password_encryption empty_plaintext_envelope sample_key key_a zero_entropy)
    = Raise (reencryption_error empty_password_error).
Proof.
  split.
  - apply (proj1 (rotation_wraps_the_first_error [] sample_key key_a zero_entropy)).
    reflexivity.
  - apply (proj2 (rotation_wraps_the_first_error empty_plaintext_envelope sample_key
                    key_a zero_entropy) []).
    + exact (decrypt_password_sealed [] sample_key [] sample_key_bytes
               sample_salt sample_iv eq_refl eq_refl sample_key_encode
               (drawn_salt_length zero_entropy) (drawn_iv_length zero_entropy)).
    + reflexivity.
Defined.

(* ===================================================================== *)
(** * The signals of the errors (C7) *)
(* ===================================================================== *)




(* ===================================================================== *)
(** * The derived key (C8) *)
(* ===================================================================== *)

(** Claim C8 as stated fails. A master key that holds a lone surrogate is
    not empty, yet [derive_key_from_master] returns no key for it: it
    raises [RuntimeError("Key derivation failed")]. *)
Lemma derivation_fails_on_surrogate :
  lone_surrogate <> [] /\
  derive_key_from_master lone_surrogate (zeros 32)
  = Raise (key_derivation_error
             (Exn UnicodeEncodeError "'utf-8' codec can't encode character" None)).
Proof. split; [discriminate|]. vm_compute. reflexivity. Qed.

(** Claim C8, amended: for every non-empty master key without surrogate
    code points and every salt, [derive_key_from_master] returns a key; it
    is the PBKDF2-HMAC-SHA256 output for the UTF-8 bytes of the master key,
    the salt and the fixed count of [PBKDF2_ITERATIONS] iterations, so any
    two calls with the same pair return the same key; the key has
    [AES_KEY_SIZE] = 32 bytes, and the count is at least 100000. *)
Theorem derived_key_is_deterministic_and_32_bytes (K : str) (salt : bytes) :
  K <> [] -> utf8_encodable K = true ->
  exists kb key,
    Utf8.encode K = Ok kb /\
    derive_key_from_master K salt = Ok key /\
    (forall key', derive_key_from_master K salt = Ok key' -> key' = key) /\
    key = Pbkdf2.derive kb salt PBKDF2_ITERATIONS AES_KEY_SIZE /\
    length key = AES_KEY_SIZE /\ AES_KEY_SIZE = 32%nat /\
    100000 <= PBKDF2_ITERATIONS.
Proof.
  intros HK WK. apply is_empty_false in HK.
  destruct (utf8_encodable_encode K WK) as [kb EK].
  pose proof (derive_key_from_master_ok K kb salt HK EK) as D.
  exists kb, (master_key_of kb salt). split_and.
  - exact EK.
  - exact D.
  - intros key' D'. rewrite D in D'. symmetry. exact (Ok_inj _ _ D').
  - reflexivity.
  - apply master_key_of_length.
  - reflexivity.
  - unfold PBKDF2_ITERATIONS. lia.
Qed.

Lemma derived_key_is_deterministic_and_32_bytes_witness :
  exists kb key,
    Utf8.encode sample_key = Ok kb /\
    derive_key_from_master sample_key (zeros 32) = Ok key /\
    (forall key', derive_key_from_master sample_key (zeros 32) = Ok key' -> key' = key) /\
    key = Pbkdf2.derive kb (zeros 32) PBKDF2_ITERATIONS AES_KEY_SIZE /\
    length key = AES_KEY_SIZE /\ AES_KEY_SIZE = 32%nat /\
    100000 <= PBKDF2_ITERATIONS.
Proof.
  apply derived_key_is_deterministic_and_32_bytes; [discriminate | reflexivity].
Defined.

(* ===================================================================== *)
(** * Empty inputs (C9, C10) *)
(* ===================================================================== *)

(** Claim C9: with an empty plaintext, and with an empty master key,
    [encrypt_password] raises a [ValueError] and leaves the entropy source
    as it was, so that no salt and no nonce has been drawn and no key
    derived; [derive_key_from_master] raises the same [ValueError] on an
    empty master key. *)
Theorem empty_input_is_refused_before_any_work :
  (forall K rng, encrypt_password [] K rng = (Raise empty_password_error, rng)) /\
  (forall c P rng,
      encrypt_password (c :: P) [] rng = (Raise empty_master_key_error, rng)) /\
  (forall salt, derive_key_from_master [] salt = Raise empty_master_key_error) /\
  exn_cls empty_password_error = ValueError /\
  exn_cls empty_master_key_error = ValueError.
Proof. split_and; reflexivity. Qed.

(** Claim C10: [decrypt_password] raises a [ValueError] on an empty
    envelope, whatever the key, and on an empty master key, whatever the
    non-empty envelope, be it base64 or not; the error is the one of the
    guard, raised outside the [try] and hence without a cause. *)
Theorem decrypt_refuses_empty_input_first :
  (forall K, decrypt_password [] K = Raise empty_envelope_error) /\
  (forall c env, decrypt_password (c :: env) [] = Raise empty_master_key_error) /\
  exn_cls empty_envelope_error = ValueError /\
  exn_cls empty_master_key_error = ValueError /\
  exn_cause empty_envelope_error = None /\
  exn_cause empty_master_key_error = None.
Proof. split_and; reflexivity. Qed.

(* ===================================================================== *)
(** * The remaining functions of [crypto_utils.py] *)
(* ===================================================================== *)

Lemma Raise_inj {A} (a b : exn) : @Raise A a = Raise b -> a = b.
Proof. intros H. now inversion H. Qed.

Lemma N_of_byte_inj (a b : byte) : N_of_byte a = N_of_byte b -> a = b.
Proof.
  intros H. rewrite <- (byte_of_N_of_byte a), <- (byte_of_N_of_byte b). now rewrite H.
Qed.

Lemma b64encode_eq (bs : bytes) : Base64.b64encode bs = Base64.b2a_base64 bs.
Proof. reflexivity. Qed.

Lemma b64decode_eq (s : bytes) : Base64.b64decode s = Base64.a2b_loop s 0 0 0.
Proof. reflexivity. Qed.

(** What [encrypt_password] returns, [decrypt_password] opens under the
    same key. *)
Lemma encrypt_then_decrypt (P K : str) (rng : entropy) (env : str) :
  fst (encrypt_password P K rng) = Ok env -> decrypt_password env K = Ok P.
Proof.
  intros H.
  destruct (encrypt_password_accepts P K rng env H) as (HP & HK & pb & kb & EP & EK).
  rewrite (encrypt_password_ok P K pb kb rng HP HK EP EK) in H. cbn [fst] in H.
  apply Ok_inj in H. subst env.
  exact (decrypt_password_sealed P K pb kb (drawn_salt rng) (drawn_iv rng)
           HK EP EK (drawn_salt_length rng) (drawn_iv_length rng)).
Qed.

Lemma sample_envelope_sealed :
  fst (encrypt_password sample_plaintext sample_key zero_entropy) = Ok sample_envelope.
Proof.
  rewrite (encrypt_password_ok sample_plaintext sample_key sample_plaintext_bytes
             sample_key_bytes zero_entropy eq_refl eq_refl
             sample_plaintext_encode sample_key_encode).
  reflexivity.
Qed.

Lemma key_a_encode : Utf8.encode key_a = Ok key_a_bytes.
Proof. vm_compute. reflexivity. Qed.

(** ** [secure_compare] *)

Lemma fold_lor_lxor_zero (l : list (N * N)) (acc : N) :
  fold_left (fun result xy => N.lor result (N.lxor (fst xy) (snd xy))) l acc = 0
  <-> acc = 0 /\ Forall (fun xy => fst xy = snd xy) l.
Proof.
  revert acc; induction l as [|[x y] l IH]; intros acc; cbn [fold_left fst snd].
  - split; [intros ->; split; [reflexivity|constructor] | tauto].
  - rewrite IH, N.lor_eq_0_iff, N.lxor_eq_0_iff. split.
    + intros [[Ha Hxy] Hl]. split; [assumption|]. constructor; assumption.
    + intros [Ha Hl]. inversion Hl; subst. cbn [fst snd] in *. tauto.
Qed.

Lemma combine_same (a b : str) :
  length a = length b ->
  Forall (fun xy => fst xy = snd xy) (combine a b) -> a = b.
Proof.
  revert b; induction a as [|x a IH]; intros [|y b] Hlen H; try discriminate;
    [reflexivity|].
  cbn [combine] in H. inversion H; subst. cbn [fst snd] in *. subst y.
  f_equal. apply IH; [now injection Hlen|assumption].
Qed.

Lemma combine_diag (a : str) : Forall (fun xy => fst xy = snd xy) (combine a a).
Proof. induction a; cbn [combine]; constructor; auto. Qed.

(** Property X1: [secure_compare a b] is [True] exactly when the two
    strings are equal: strings of different lengths compare unequal, and
    for strings of one length the accumulated [|=] of the [^] of the code
    points is zero only if every pair of characters agrees. *)
Theorem secure_compare_is_equality (a b : str) :
  secure_compare a b = true <-> a = b.
Proof.
  unfold secure_compare. split.
  - destruct (Nat.eqb_spec (length a) (length b)) as [Hlen|]; cbn [negb]; [|discriminate].
    intros H. apply N.eqb_eq, fold_lor_lxor_zero in H. destruct H as [_ H].
    now apply combine_same.
  - intros <-. rewrite Nat.eqb_refl. cbn [negb].
    apply N.eqb_eq, fold_lor_lxor_zero. split; [reflexivity|apply combine_diag].
Qed.

(** ** [generate_encryption_key] *)

Lemma hexlify_length (bs : bytes) : length (hexlify bs) = (2 * length bs)%nat.
Proof. induction bs as [|b bs IH]; cbn [hexlify flat_map app length] in *; [reflexivity|].
  fold (hexlify bs). rewrite IH. lia. Qed.

Lemma hex_digit_is_hex (n : N) : n < 16 -> is_hex_char (hex_digit n) = true.
Proof.
  intros H. unfold hex_digit, is_hex_char.
  destruct (N.ltb_spec n 10); apply orb_true_iff; [left|right];
    apply andb_true_iff; split; apply N.leb_le; lia.
Qed.

Lemma hex_digit_inj (m n : N) : m < 16 -> n < 16 -> hex_digit m = hex_digit n -> m = n.
Proof.
  unfold hex_digit. intros Hm Hn.
  destruct (N.ltb_spec m 10), (N.ltb_spec n 10); lia.
Qed.

Lemma hexlify_hex (bs : bytes) : forallb is_hex_char (hexlify bs) = true.
Proof.
  induction bs as [|b bs IH]; [reflexivity|].
  cbn [hexlify flat_map app forallb]. fold (hexlify bs). rewrite IH.
  pose proof (N_of_byte_lt b).
  rewrite !hex_digit_is_hex by lia. reflexivity.
Qed.

Lemma hexlify_inj (b1 b2 : bytes) : hexlify b1 = hexlify b2 -> b1 = b2.
Proof.
  revert b2; induction b1 as [|x b1 IH]; intros [|y b2] H; try discriminate;
    [reflexivity|].
  cbn [hexlify flat_map app] in H. fold (hexlify b1) (hexlify b2) in H.
  pose proof (N_of_byte_lt x). pose proof (N_of_byte_lt y).
  assert (Hhi : hex_digit (N_of_byte x / 16) = hex_digit (N_of_byte y / 16))
    by (exact (f_equal (fun l => nth 0 l 0) H)).
  assert (Hlo : hex_digit (N_of_byte x mod 16) = hex_digit (N_of_byte y mod 16))
    by (exact (f_equal (fun l => nth 1 l 0) H)).
  assert (Hrest : hexlify b1 = hexlify b2)
    by (exact (f_equal (fun l => skipn 2 l) H)).
  apply hex_digit_inj in Hhi; [|lia..]. apply hex_digit_inj in Hlo; [|lia..].
  f_equal; [|now apply IH].
  apply N_of_byte_inj. lia.
Qed.

(** Text of characters below 128 encodes to one byte per character. *)
Lemma encode_chars_ascii_str (s : str) :
  Forall (fun c => c < 128) s -> Utf8.encode_chars s = Some (map byte_of_N s).
Proof.
  induction 1 as [|c s Hc _ IH]; [reflexivity|].
  cbn [Utf8.encode_chars map]. rewrite IH. unfold Utf8.encode_char.
  destruct (N.ltb_spec c 0x80); [reflexivity|lia].
Qed.

Lemma is_hex_char_lt (c : N) : is_hex_char c = true -> c < 128.
Proof.
  unfold is_hex_char. intros H. apply orb_true_iff in H.
  destruct H as [H|H]; apply andb_true_iff in H; destruct H as [_ H];
    apply N.leb_le in H; lia.
Qed.

Lemma hex_str_ascii (s : str) : forallb is_hex_char s = true -> Forall (fun c => c < 128) s.
Proof.
  intros H. apply Forall_forall. intros c Hc.
  apply is_hex_char_lt. rewrite forallb_forall in H. now apply H.
Qed.

Lemma hex_str_encodable (s : str) : forallb is_hex_char s = true -> utf8_encodable s = true.
Proof.
  intros H. apply forallb_forall. intros c Hc.
  rewrite forallb_forall in H. pose proof (is_hex_char_lt c (H c Hc)).
  unfold is_scalar_value. apply orb_true_iff. left. apply N.ltb_lt. lia.
Qed.

Lemma map_byte_of_N_inj (s1 s2 : str) :
  Forall (fun c => c < 128) s1 -> Forall (fun c => c < 128) s2 ->
  map byte_of_N s1 = map byte_of_N s2 -> s1 = s2.
Proof.
  intros H1; revert s2; induction H1 as [|c s1 Hc _ IH]; intros s2 H2 E;
    destruct H2 as [|d s2 Hd H2]; try discriminate; [reflexivity|].
  cbn [map] in E.
  assert (E1 : byte_of_N c = byte_of_N d) by exact (f_equal (fun l => hd Byte.x00 l) E).
  assert (E2 : map byte_of_N s1 = map byte_of_N s2) by exact (f_equal (@tl _) E).
  apply (f_equal N_of_byte) in E1. rewrite !N_of_byte_of_N in E1 by lia.
  f_equal; [assumption|now apply IH].
Qed.


Lemma generate_encryption_key_eq (rng : entropy) :
  generate_encryption_key rng
  = (hexlify (map rng (seq 0 32)), fun i => rng (32 + i)%nat).
Proof. reflexivity. Qed.

Lemma generated_key_shape (rng : entropy) :
  let key := fst (generate_encryption_key rng) in
  length key = 64%nat /\ forallb is_hex_char key = true /\
  key <> [] /\ utf8_encodable key = true /\
  forall i, snd (generate_encryption_key rng) i = rng (32 + i)%nat.
Proof.
  rewrite generate_encryption_key_eq. cbn [fst snd].
  assert (L : length (hexlify (map rng (seq 0 32))) = 64%nat)
    by (rewrite hexlify_length, length_map, length_seq; reflexivity).
  split_and.
  - exact L.
  - apply hexlify_hex.
  - intros E. rewrite E in L. discriminate L.
  - apply hex_str_encodable, hexlify_hex.
  - reflexivity.
Qed.

(** A generated key is used by HMAC as it is: its 64 bytes fill the block. *)
Lemma generated_key_block (k : str) :
  length k = 64%nat -> Hmac.key_block (map byte_of_N k) = map byte_of_N k.
Proof.
  intros L. unfold Hmac.key_block, Sha256.block_size.
  assert (Lm : length (map byte_of_N k) = 64%nat) by now rewrite length_map.
  rewrite Lm. change (64 <? 64)%nat with false. cbv iota.
  rewrite Lm, Nat.sub_diag. apply app_nil_r.
Qed.

(** Property X2: the key returned by [generate_encryption_key] has 64
    characters, all of them lower-case hexadecimal digits; it is therefore
    not empty and [str.encode('utf-8')] accepts it; 32 bytes of the entropy
    source have been used. *)
Theorem generated_key_is_64_hex_digits (rng : entropy) :
  let key := fst (generate_encryption_key rng) in
  length key = 64%nat /\ forallb is_hex_char key = true /\
  key <> [] /\ utf8_encodable key = true /\
  forall i, snd (generate_encryption_key rng) i = rng (32 + i)%nat.
Proof. exact (generated_key_shape rng). Qed.

(** Property X3: two calls of [generate_encryption_key] return the same
    key exactly when they drew the same 32 bytes: the hexadecimal text
    loses nothing of the bytes. *)
Theorem generated_keys_differ_with_the_drawn_bytes (rng1 rng2 : entropy) :
  fst (generate_encryption_key rng1) = fst (generate_encryption_key rng2)
  <-> fst (token_bytes 32 rng1) = fst (token_bytes 32 rng2).
Proof.
  rewrite !generate_encryption_key_eq. cbn [fst token_bytes]. split.
  - apply hexlify_inj.
  - now intros ->.
Qed.

(** Property X4: a key returned by [generate_encryption_key] is accepted
    as master key: for every non-empty plaintext without surrogate code
    points, [encrypt_password] under that key returns an envelope, which
    [decrypt_password] under that key opens to the plaintext. *)
Theorem generated_key_round_trips (P : str) (rng_key rng : entropy) :
  P <> [] -> utf8_encodable P = true ->
  round_trips P (fst (generate_encryption_key rng_key)) rng.
Proof.
  intros HP WP.
  destruct (generated_key_shape rng_key) as (_ & _ & HK & WK & _).
  set (K := fst (generate_encryption_key rng_key)) in *.
  destruct (utf8_encodable_encode P WP) as [pb EP].
  destruct (utf8_encodable_encode K WK) as [kb EK].
  apply is_empty_false in HP, HK.
  exists (envelope_of (sealed_data kb pb (drawn_salt rng) (drawn_iv rng))). split.
  - now rewrite (encrypt_password_ok P K pb kb rng HP HK EP EK).
  - exact (decrypt_password_sealed P K pb kb (drawn_salt rng) (drawn_iv rng)
             HK EP EK (drawn_salt_length rng) (drawn_iv_length rng)).
Qed.

Lemma generated_key_round_trips_witness :
  round_trips sample_plaintext (fst (generate_encryption_key zero_entropy)) zero_entropy.
Proof.
  apply generated_key_round_trips; [discriminate | reflexivity].
Defined.

(** Property X5: the UTF-8 bytes of a generated key are exactly one HMAC
    block, so the key enters PBKDF2 unpadded and unhashed, and two
    generated keys have the same HMAC key block exactly when they were
    made of the same 32 drawn bytes: unlike arbitrary master keys, two
    different generated keys never derive their keys from one block. *)
Theorem generated_keys_have_distinct_key_blocks (rng1 rng2 : entropy) :
  exists kb1 kb2,
    Utf8.encode (fst (generate_encryption_key rng1)) = Ok kb1 /\
    Utf8.encode (fst (generate_encryption_key rng2)) = Ok kb2 /\
    Hmac.key_block kb1 = kb1 /\ Hmac.key_block kb2 = kb2 /\
    (Hmac.key_block kb1 = Hmac.key_block kb2
     <-> fst (token_bytes 32 rng1) = fst (token_bytes 32 rng2)).
Proof.
  destruct (generated_key_shape rng1) as (L1 & X1 & _).
  destruct (generated_key_shape rng2) as (L2 & X2 & _).
  rewrite !generate_encryption_key_eq in *. cbn [fst token_bytes] in *.
  set (k1 := hexlify (map rng1 (seq 0 32))) in *.
  set (k2 := hexlify (map rng2 (seq 0 32))) in *.
  pose proof (hex_str_ascii k1 X1) as A1. pose proof (hex_str_ascii k2 X2) as A2.
  exists (map byte_of_N k1), (map byte_of_N k2). split_and.
  - unfold Utf8.encode. now rewrite (encode_chars_ascii_str k1 A1).
  - unfold Utf8.encode. now rewrite (encode_chars_ascii_str k2 A2).
  - exact (generated_key_block k1 L1).
  - exact (generated_key_block k2 L2).
  - rewrite (generated_key_block k1 L1), (generated_key_block k2 L2). split.
    + intros E. apply hexlify_inj. exact (map_byte_of_N_inj k1 k2 A1 A2 E).
    + intros E. unfold k1, k2. now rewrite E.
Qed.

(** ** [verify_encryption_integrity] *)

(** Property X6: [verify_encryption_integrity] returns [True] on every
    envelope that [encrypt_password] returned, when given the master key it
    was made with. *)
Theorem fresh_envelope_passes_integrity_check (P K : str) (rng : entropy) (env : str) :
  fst (encrypt_password P K rng) = Ok env ->
  verify_encryption_integrity env K = true.
Proof.
  intros H. unfold verify_encryption_integrity.
  now rewrite (encrypt_then_decrypt P K rng env H).
Qed.

Lemma fresh_envelope_passes_integrity_check_witness :
  verify_encryption_integrity sample_envelope sample_key = true.
Proof.
  exact (fresh_envelope_passes_integrity_check sample_plaintext sample_key
           zero_entropy sample_envelope sample_envelope_sealed).
Defined.

(** Property X7: in an envelope that [encrypt_password] returned, replace
    the 16 bytes of the tag by any other 16 bytes: [decrypt_password] under
    the same key raises [RuntimeError("Password decryption failed")] caused
    by [InvalidTag], and [verify_encryption_integrity] returns [False]. *)
Theorem changed_tag_is_rejected (P K : str) (rng : entropy) (env : str) (tag' : bytes) :
  fst (encrypt_password P K rng) = Ok env ->
  length tag' = TAG_SIZE ->
  exists salt iv tag ct,
    env = envelope_of (salt ++ iv ++ tag ++ ct) /\
    length salt = SALT_SIZE /\ length iv = IV_SIZE /\ length tag = TAG_SIZE /\
    (tag' <> tag ->
     decrypt_password (envelope_of (salt ++ iv ++ tag' ++ ct)) K
       = Raise authentication_error
     /\ verify_encryption_integrity (envelope_of (salt ++ iv ++ tag' ++ ct)) K = false).
Proof.
  intros H Ht'.
  destruct (encrypt_password_accepts P K rng env H) as (HP & HK & pb & kb & EP & EK).
  rewrite (encrypt_password_ok P K pb kb rng HP HK EP EK) in H. cbn [fst] in H.
  apply Ok_inj in H. subst env.
  pose proof (drawn_salt_length rng) as Hs. pose proof (drawn_iv_length rng) as Hi.
  pose proof (sealed_data_verifies kb pb (drawn_salt rng) (drawn_iv rng) Hs Hi) as V.
  unfold sealed_data in *.
  set (salt := drawn_salt rng) in *. set (iv := drawn_iv rng) in *.
  pose proof (sealed_tag_length kb pb salt iv) as Ht.
  set (tag := sealed_tag kb pb salt iv) in *.
  set (ct := sealed_ciphertext kb pb salt iv) in *.
  exists salt, iv, tag, ct. split_and; try assumption; try reflexivity.
  intros Hne.
  pose proof (modified_tag_rejected K kb salt iv tag tag' ct HK EK Hs Hi Ht Ht' V Hne) as D.
  split; [exact D|]. unfold verify_encryption_integrity. now rewrite D.
Qed.

Lemma changed_tag_is_rejected_witness :
  exists salt iv tag ct,
    sample_envelope = envelope_of (salt ++ iv ++ tag ++ ct) /\
    length salt = SALT_SIZE /\ length iv = IV_SIZE /\ length tag = TAG_SIZE /\
    (zeros 16 <> tag ->
     decrypt_password (envelope_of (salt ++ iv ++ zeros 16 ++ ct)) sample_key
       = Raise authentication_error
     /\ verify_encryption_integrity
          (envelope_of (salt ++ iv ++ zeros 16 ++ ct)) sample_key = false).
Proof.
  exact (changed_tag_is_rejected sample_plaintext sample_key zero_entropy
           sample_envelope (zeros 16) sample_envelope_sealed eq_refl).
Defined.

(* ===================================================================== *)
(** * The text of an envelope *)
(* ===================================================================== *)

Lemma b2a_base64_length (bs : bytes) :
  length (Base64.b2a_base64 bs) = (4 * ((length bs + 2) / 3))%nat.
Proof.
  induction bs as [|x|x y|x y z r IH] using list_ind3; try reflexivity.
  cbn [Base64.b2a_base64 length]. rewrite IH.
  replace (S (S (S (length r))) + 2)%nat with ((length r + 2) + 1 * 3)%nat by lia.
  rewrite Nat.div_add by discriminate. lia.
Qed.

Lemma envelope_of_length (data : bytes) :
  length (envelope_of data) = (4 * ((length data + 2) / 3))%nat.
Proof.
  unfold envelope_of, str_of_bytes. rewrite length_map, b64encode_eq.
  apply b2a_base64_length.
Qed.

Lemma b2a_is_base64_char (n : N) :
  n < 64 -> is_base64_char (N_of_byte (Base64.b2a n)) = true.
Proof.
  intros Hn.
  assert (H : forall m : nat, (m < 64)%nat ->
     is_base64_char (N_of_byte (Base64.b2a (N.of_nat m))) = true).
  { intros m Hm. do 64 (destruct m as [|m]; [vm_compute; reflexivity|]). lia. }
  specialize (H (N.to_nat n)). rewrite N2Nat.id in H. apply H. lia.
Qed.

Lemma b2a_base64_alphabet (bs : bytes) :
  Forall (fun ch => is_base64_char (N_of_byte ch) = true) (Base64.b2a_base64 bs).
Proof.
  induction bs as [|x|x y|x y z r IH] using list_ind3; cbn [Base64.b2a_base64].
  - constructor.
  - pose proof (N_of_byte_lt x).
    repeat (constructor; [first [apply b2a_is_base64_char; lia | reflexivity]|]).
    constructor.
  - pose proof (N_of_byte_lt x). pose proof (N_of_byte_lt y).
    repeat (constructor; [first [apply b2a_is_base64_char; lia | reflexivity]|]).
    constructor.
  - pose proof (N_of_byte_lt x). pose proof (N_of_byte_lt y). pose proof (N_of_byte_lt z).
    repeat (constructor; [apply b2a_is_base64_char; lia|]). exact IH.
Qed.

(** Property X8: the text that [encrypt_password] returns has
    [4 * ceil((64 + n) / 3)] characters, where [n] is the number of UTF-8
    bytes of the plaintext; it has at least 88 characters, a multiple of
    four, and holds only characters of the base64 alphabet and the padding
    character. *)
Theorem envelope_text_size_and_alphabet (P K : str) (rng : entropy) (env : str) :
  fst (encrypt_password P K rng) = Ok env ->
  exists pb,
    Utf8.encode P = Ok pb /\
    length env = (4 * ((64 + length pb + 2) / 3))%nat /\
    (88 <= length env)%nat /\ (length env mod 4 = 0)%nat /\
    forallb is_base64_char env = true.
Proof.
  intros H.
  destruct (encrypt_password_accepts P K rng env H) as (HP & HK & pb & kb & EP & EK).
  rewrite (encrypt_password_ok P K pb kb rng HP HK EP EK) in H. cbn [fst] in H.
  apply Ok_inj in H. subst env.
  pose proof (sealed_data_length kb pb (drawn_salt rng) (drawn_iv rng)
                (drawn_salt_length rng) (drawn_iv_length rng)) as L.
  exists pb. rewrite envelope_of_length, L.
  assert (Hdiv : (22 <= (64 + length pb + 2) / 3)%nat).
  { apply Nat.div_le_lower_bound; lia. }
  split_and.
  - exact EP.
  - reflexivity.
  - lia.
  - rewrite Nat.mul_comm. apply Nat.Div0.mod_mul.
  - apply forallb_forall. intros c Hc. unfold envelope_of, str_of_bytes in Hc.
    apply in_map_iff in Hc. destruct Hc as (ch & <- & Hch).
    rewrite b64encode_eq in Hch.
    pose proof (b2a_base64_alphabet (sealed_data kb pb (drawn_salt rng) (drawn_iv rng))) as A.
    rewrite Forall_forall in A. exact (A ch Hch).
Qed.

Lemma envelope_text_size_and_alphabet_witness :
  exists pb,
    Utf8.encode sample_plaintext = Ok pb /\
    length sample_envelope = (4 * ((64 + length pb + 2) / 3))%nat /\
    (88 <= length sample_envelope)%nat /\ (length sample_envelope mod 4 = 0)%nat /\
    forallb is_base64_char sample_envelope = true.
Proof.
  exact (envelope_text_size_and_alphabet sample_plaintext sample_key zero_entropy
           sample_envelope sample_envelope_sealed).
Defined.

Lemma str_of_bytes_inj (b1 b2 : bytes) : str_of_bytes b1 = str_of_bytes b2 -> b1 = b2.
Proof.
  revert b2; induction b1 as [|x b1 IH]; intros [|y b2] H; try discriminate;
    [reflexivity|].
  cbn [str_of_bytes map] in H.
  assert (E1 : N_of_byte x = N_of_byte y) by exact (f_equal (fun l => hd 0 l) H).
  assert (E2 : str_of_bytes b1 = str_of_bytes b2) by exact (f_equal (@tl _) H).
  f_equal; [now apply N_of_byte_inj|now apply IH].
Qed.

Lemma envelope_of_inj (d1 d2 : bytes) : envelope_of d1 = envelope_of d2 -> d1 = d2.
Proof.
  intros H. apply str_of_bytes_inj in H.
  pose proof (b64decode_b64encode d1) as E. rewrite H, b64decode_b64encode in E.
  symmetry. exact (Ok_inj _ _ E).
Qed.

(** Property X9: if two calls of [encrypt_password] return the same
    envelope, they drew the same salt and the same nonce, and if they were
    given the same master key they were given the same plaintext. So two
    encryptions with different salts or nonces never return the same
    text. *)
Theorem equal_envelopes_share_salt_and_nonce
    (P1 K1 P2 K2 : str) (rng1 rng2 : entropy) (env : str) :
  fst (encrypt_password P1 K1 rng1) = Ok env ->
  fst (encrypt_password P2 K2 rng2) = Ok env ->
  drawn_salt rng1 = drawn_salt rng2 /\ drawn_iv rng1 = drawn_iv rng2 /\
  (K1 = K2 -> P1 = P2).
Proof.
  intros H1 H2.
  assert (HP : K1 = K2 -> P1 = P2).
  { intros <-.
    pose proof (encrypt_then_decrypt P1 K1 rng1 env H1) as D1.
    pose proof (encrypt_then_decrypt P2 K1 rng2 env H2) as D2.
    rewrite D1 in D2. exact (Ok_inj P1 P2 D2). }
  destruct (encrypt_password_accepts P1 K1 rng1 env H1) as (HP1 & HK1 & pb1 & kb1 & EP1 & EK1).
  destruct (encrypt_password_accepts P2 K2 rng2 env H2) as (HP2 & HK2 & pb2 & kb2 & EP2 & EK2).
  rewrite (encrypt_password_ok P1 K1 pb1 kb1 rng1 HP1 HK1 EP1 EK1) in H1.
  rewrite (encrypt_password_ok P2 K2 pb2 kb2 rng2 HP2 HK2 EP2 EK2) in H2.
  cbn [fst] in H1, H2. apply Ok_inj in H1, H2. rewrite <- H2 in H1.
  apply envelope_of_inj in H1. unfold sealed_data in H1.
  pose proof (drawn_salt_length rng1) as Hs1. pose proof (drawn_iv_length rng1) as Hi1.
  pose proof (drawn_salt_length rng2) as Hs2. pose proof (drawn_iv_length rng2) as Hi2.
  set (s1 := drawn_salt rng1) in *. set (i1 := drawn_iv rng1) in *.
  set (s2 := drawn_salt rng2) in *. set (i2 := drawn_iv rng2) in *.
  pose proof (sealed_tag_length kb1 pb1 s1 i1) as Ht1.
  pose proof (sealed_tag_length kb2 pb2 s2 i2) as Ht2.
  set (t1 := sealed_tag kb1 pb1 s1 i1) in *. set (c1 := sealed_ciphertext kb1 pb1 s1 i1) in *.
  set (t2 := sealed_tag kb2 pb2 s2 i2) in *. set (c2 := sealed_ciphertext kb2 pb2 s2 i2) in *.
  split_and.
  - rewrite <- (envelope_salt_app s1 i1 t1 c1 Hs1), <- (envelope_salt_app s2 i2 t2 c2 Hs2).
    now rewrite H1.
  - rewrite <- (envelope_iv_app s1 i1 t1 c1 Hs1 Hi1), <- (envelope_iv_app s2 i2 t2 c2 Hs2 Hi2).
    now rewrite H1.
  - exact HP.
Qed.

Lemma equal_envelopes_share_salt_and_nonce_witness :
  drawn_salt zero_entropy = drawn_salt zero_entropy /\
  drawn_iv zero_entropy = drawn_iv zero_entropy /\
  (sample_key = sample_key -> sample_plaintext = sample_plaintext).
Proof.
  exact (equal_envelopes_share_salt_and_nonce sample_plaintext sample_key
           sample_plaintext sample_key zero_entropy zero_entropy sample_envelope
           sample_envelope_sealed sample_envelope_sealed).
Defined.

(* ===================================================================== *)
(** * What [decrypt_password] accepts and how it fails *)
(* ===================================================================== *)

Lemma a2b_loop_raises_binascii (s : bytes) :
  forall q l p e, Base64.a2b_loop s q l p = Raise e -> exn_cls e = BinasciiError.
Proof.
  induction s as [|ch rest IH]; intros q l p e; cbn [Base64.a2b_loop].
  - destruct q as [|[|q]]; [discriminate| |]; intros [= <-]; reflexivity.
  - destruct (Base64.is_pad ch).
    + destruct (2 <=? q)%nat; [destruct (4 <=? q + S p)%nat; [discriminate|]|]; apply IH.
    + destruct (Base64.a2b ch) as [v|]; [|apply IH].
      destruct q as [|[|[|q]]]; [apply IH| | |];
        match goal with
        | |- match ?r with _ => _ end = _ -> _ =>
            destruct r as [out|e'] eqn:E; [discriminate|];
            intros [= <-]; exact (IH _ _ _ _ E)
        end.
Qed.

Lemma utf8_encode_raises (s : str) (e : exn) :
  Utf8.encode s = Raise e -> exn_cls e = UnicodeEncodeError.
Proof.
  unfold Utf8.encode. destruct (Utf8.encode_chars s); [discriminate|].
  intros [= <-]. reflexivity.
Qed.

Lemma decrypt_password_encode_fails (env K : str) (e : exn) :
  is_empty env = false -> is_empty K = false ->
  Utf8.encode env = Raise e ->
  decrypt_password env K
  = Raise (Exn ValueError "Invalid encrypted password data" (Some e)).
Proof.
  intros Henv HK E. unfold decrypt_password. rewrite Henv, HK, E.
  cbn [bind except_ValueError_Exception].
  now rewrite (utf8_encode_raises env e E).
Qed.

Lemma decrypt_password_b64_fails (env K : str) (encoded : bytes) (e : exn) :
  is_empty env = false -> is_empty K = false ->
  Utf8.encode env = Ok encoded -> Base64.b64decode encoded = Raise e ->
  decrypt_password env K
  = Raise (Exn ValueError "Invalid encrypted password data" (Some e)).
Proof.
  intros Henv HK E D. unfold decrypt_password. rewrite Henv, HK, E.
  cbn [bind]. rewrite D. cbn [bind except_ValueError_Exception].
  rewrite b64decode_eq in D.
  now rewrite (a2b_loop_raises_binascii encoded 0%nat 0 0%nat e D).
Qed.

(** Property X10: with a non-empty text and a non-empty master key, when
    the text cannot be encoded ([UnicodeEncodeError]) or is not base64
    ([binascii.Error]), [decrypt_password] raises
    [ValueError("Invalid encrypted password data")] caused by that error,
    whatever the master key is. *)
Theorem undecodable_text_is_a_ValueError (env K : str) (e : exn) :
  env <> [] -> K <> [] ->
  Utf8.encode env = Raise e \/
  (exists encoded, Utf8.encode env = Ok encoded /\ Base64.b64decode encoded = Raise e) ->
  decrypt_password env K
  = Raise (Exn ValueError "Invalid encrypted password data" (Some e)) /\
  (exn_cls e = UnicodeEncodeError \/ exn_cls e = BinasciiError).
Proof.
  intros Henv HK H. apply is_empty_false in Henv, HK.
  destruct H as [E|(encoded & E & D)].
  - split; [exact (decrypt_password_encode_fails env K e Henv HK E)|].
    left. exact (utf8_encode_raises env e E).
  - split; [exact (decrypt_password_b64_fails env K encoded e Henv HK E D)|].
    right. rewrite b64decode_eq in D.
    exact (a2b_loop_raises_binascii encoded 0%nat 0 0%nat e D).
Qed.

Lemma undecodable_text_is_a_ValueError_witness :
  decrypt_password unpadded_text sample_key
  = Raise (Exn ValueError "Invalid encrypted password data"
             (Some (Exn BinasciiError "Incorrect padding" None))) /\
  (exn_cls (Exn BinasciiError "Incorrect padding" None) = UnicodeEncodeError \/
   exn_cls (Exn BinasciiError "Incorrect padding" None) = BinasciiError).
Proof.
  apply (undecodable_text_is_a_ValueError unpadded_text sample_key
           (Exn BinasciiError "Incorrect padding" None)).
  - discriminate.
  - discriminate.
  - right. exists (list_byte_of_string "QUJ"). split; vm_compute; reflexivity.
Defined.

(** Property X11: [decrypt_password] returns a plaintext only if the text
    is base64 of at least 64 bytes, the master key can be encoded, the tag
    stored in the envelope is the tag of its ciphertext under the derived
    key, and the decrypted bytes are the UTF-8 encoding of what is
    returned: nothing is released before the tag has been verified. *)
Theorem plaintext_only_if_tag_verifies (env K P : str) :
  decrypt_password env K = Ok P ->
  exists encoded data kb,
    Utf8.encode env = Ok encoded /\ Base64.b64decode encoded = Ok data /\
    (64 <= length data)%nat /\ Utf8.encode K = Ok kb /\
    tag_verifies kb data = true /\
    Utf8.decode (opened_bytes kb data) = Ok P.
Proof.
  intros H.
  destruct (is_empty env) eqn:Henv.
  { unfold decrypt_password in H. rewrite Henv in H. discriminate H. }
  destruct (is_empty K) eqn:HK.
  { unfold decrypt_password in H. rewrite Henv, HK in H. discriminate H. }
  destruct (Utf8.encode env) as [encoded|e] eqn:E.
  2:{ rewrite (decrypt_password_encode_fails env K e Henv HK E) in H. discriminate H. }
  destruct (Base64.b64decode encoded) as [data|e] eqn:D.
  2:{ rewrite (decrypt_password_b64_fails env K encoded e Henv HK E D) in H.
      discriminate H. }
  destruct (Nat.ltb_spec (length data) 64) as [Hlt|Hge].
  { rewrite (decrypt_password_short env K encoded data Henv HK E D Hlt) in H.
    discriminate H. }
  destruct (Utf8.encode K) as [kb|e] eqn:EK.
  2:{ rewrite (decrypt_password_bad_key env K encoded data e Henv HK E D Hge EK) in H.
      discriminate H. }
  rewrite (decrypt_password_decoded env K encoded data kb Henv HK E D Hge EK) in H.
  exists encoded, data, kb.
  destruct (tag_verifies kb data); [|discriminate H].
  split_and; try reflexivity; try assumption.
  destruct (Utf8.decode (opened_bytes kb data)) as [P'|e] eqn:Dec.
  - cbn [except_ValueError_Exception] in H. exact H.
  - cbn [except_ValueError_Exception] in H.
    destruct (is_ValueError (exn_cls e)); discriminate H.
Qed.

Lemma plaintext_only_if_tag_verifies_witness :
  exists encoded data kb,
    Utf8.encode sample_envelope = Ok encoded /\ Base64.b64decode encoded = Ok data /\
    (64 <= length data)%nat /\ Utf8.encode sample_key = Ok kb /\
    tag_verifies kb data = true /\
    Utf8.decode (opened_bytes kb data) = Ok sample_plaintext.
Proof.
  exact (plaintext_only_if_tag_verifies sample_envelope sample_key sample_plaintext
           (encrypt_then_decrypt sample_plaintext sample_key zero_entropy
              sample_envelope sample_envelope_sealed)).
Defined.

Lemma a2b_loop_skip (ch : byte) (l1 l2 : bytes) :
  Base64.is_pad ch = false -> Base64.a2b ch = None ->
  forall q l p,
    Base64.a2b_loop (l1 ++ ch :: l2) q l p = Base64.a2b_loop (l1 ++ l2) q l p.
Proof.
  intros Hp Ha. induction l1 as [|x l1 IH]; intros q l p.
  - cbn [app Base64.a2b_loop]. now rewrite Hp, Ha.
  - cbn [app Base64.a2b_loop].
    destruct (Base64.is_pad x).
    + destruct (2 <=? q)%nat; [destruct (4 <=? q + S p)%nat; [reflexivity|]|]; apply IH.
    + destruct (Base64.a2b x) as [v|]; [|apply IH].
      destruct q as [|[|[|q]]]; [apply IH| | |]; now rewrite IH.
Qed.

Lemma encode_chars_app (s1 s2 : str) :
  Utf8.encode_chars (s1 ++ s2) =
  match Utf8.encode_chars s1, Utf8.encode_chars s2 with
  | Some b1, Some b2 => Some (b1 ++ b2)
  | _, _ => None
  end.
Proof.
  induction s1 as [|c s1 IH]; cbn [app Utf8.encode_chars].
  - destruct (Utf8.encode_chars s2); reflexivity.
  - rewrite IH. destruct (Utf8.encode_char c) as [bc|]; [|reflexivity].
    destruct (Utf8.encode_chars s1) as [b1|]; [|reflexivity].
    destruct (Utf8.encode_chars s2) as [b2|]; [|reflexivity].
    now rewrite app_assoc.
Qed.

Lemma not_base64_char (c : N) :
  c < 128 -> is_base64_char c = false ->
  Utf8.encode_char c = Some [byte_of_N c] /\
  Base64.is_pad (byte_of_N c) = false /\ Base64.a2b (byte_of_N c) = None.
Proof.
  intros Hc H. unfold Utf8.encode_char, Base64.is_pad, Base64.a2b.
  rewrite N_of_byte_of_N by lia. unfold is_base64_char in H.
  repeat (apply orb_false_iff in H; destruct H as [H ?]).
  destruct (N.ltb_spec c 0x80); [|lia].
  split_and; [reflexivity| |].
  - assumption.
  - repeat match goal with
           | H : _ = false |- _ => rewrite H; clear H
           end. reflexivity.
Qed.

(** Property X12: [decrypt_password] ignores every ASCII character of the
    text that is neither in the base64 alphabet nor the padding character
    (a line break, a blank, ...): inserting one anywhere into a non-empty
    text without surrogate code points changes neither the result nor the
    error. The stored text is not compared to what [encrypt_password]
    wrote. *)
Theorem characters_outside_base64_are_ignored (s1 s2 : str) (c : N) (K : str) :
  s1 ++ s2 <> [] -> utf8_encodable (s1 ++ s2) = true ->
  c < 128 -> is_base64_char c = false ->
  decrypt_password (s1 ++ c :: s2) K = decrypt_password (s1 ++ s2) K.
Proof.
  intros Hne W Hc Hb.
  destruct (not_base64_char c Hc Hb) as (Ec & Hp & Ha).
  unfold utf8_encodable in W. rewrite forallb_app in W.
  apply andb_true_iff in W. destruct W as [W1 W2].
  destruct (utf8_encodable_encode s1 W1) as [b1 E1].
  destruct (utf8_encodable_encode s2 W2) as [b2 E2].
  unfold Utf8.encode in E1, E2.
  destruct (Utf8.encode_chars s1) as [b1'|] eqn:C1; [|discriminate E1].
  destruct (Utf8.encode_chars s2) as [b2'|] eqn:C2; [|discriminate E2].
  assert (Ea : Utf8.encode (s1 ++ s2) = Ok (b1' ++ b2')).
  { unfold Utf8.encode. now rewrite encode_chars_app, C1, C2. }
  assert (Eb : Utf8.encode (s1 ++ c :: s2) = Ok (b1' ++ byte_of_N c :: b2')).
  { unfold Utf8.encode. rewrite encode_chars_app, C1. cbn [Utf8.encode_chars].
    now rewrite Ec, C2. }
  unfold decrypt_password.
  rewrite (is_empty_false _ Hne).
  assert (Hne' : is_empty (s1 ++ c :: s2) = false) by (destruct s1; reflexivity).
  rewrite Hne', Ea, Eb. cbn [bind].
  rewrite !b64decode_eq, (a2b_loop_skip (byte_of_N c) b1' b2' Hp Ha). reflexivity.
Qed.

Lemma characters_outside_base64_are_ignored_witness :
  decrypt_password (str_of_string "QU" ++ 10 :: str_of_string "JD") sample_key
  = decrypt_password (str_of_string "QU" ++ str_of_string "JD") sample_key.
Proof.
  apply characters_outside_base64_are_ignored;
    [discriminate | reflexivity | reflexivity | reflexivity].
Defined.

(** Property X13: [decrypt_password] fails in these ways only: the two
    [ValueError]s of its guards; [ValueError("Invalid encrypted password
    data")] caused by a [UnicodeEncodeError] of the text, a
    [binascii.Error], the [ValueError] of the length check or a
    [UnicodeDecodeError] of the decrypted bytes; and
    [RuntimeError("Password decryption failed")] caused by [InvalidTag] or
    by the [RuntimeError("Key derivation failed")] of a master key that
    cannot be encoded. *)
Theorem decrypt_password_fails_only_in_these_ways (env K : str) (e : exn) :
  decrypt_password env K = Raise e ->
  e = empty_envelope_error \/ e = empty_master_key_error \/
  (exists e0, e = Exn ValueError "Invalid encrypted password data" (Some e0) /\
     (exn_cls e0 = UnicodeEncodeError \/ exn_cls e0 = BinasciiError \/
      e0 = Exn ValueError "Invalid encrypted data format" None \/
      exn_cls e0 = UnicodeDecodeError)) \/
  (exists e0, e = Exn RuntimeError "Password decryption failed" (Some e0) /\
     (e0 = Exn InvalidTag "" None \/
      exists e1, e0 = key_derivation_error e1 /\ exn_cls e1 = UnicodeEncodeError)).
Proof.
  intros H.
  destruct (is_empty env) eqn:Henv.
  { left. unfold decrypt_password in H. rewrite Henv in H.
    symmetry. exact (Raise_inj _ _ H). }
  destruct (is_empty K) eqn:HK.
  { right; left. unfold decrypt_password in H. rewrite Henv, HK in H.
    symmetry. exact (Raise_inj _ _ H). }
  destruct (Utf8.encode env) as [encoded|e0] eqn:E.
  2:{ rewrite (decrypt_password_encode_fails env K e0 Henv HK E) in H.
      apply Raise_inj in H. subst e.
      right; right; left. exists e0. split; [reflexivity|].
      left. exact (utf8_encode_raises env e0 E). }
  destruct (Base64.b64decode encoded) as [data|e0] eqn:D.
  2:{ rewrite (decrypt_password_b64_fails env K encoded e0 Henv HK E D) in H.
      apply Raise_inj in H. subst e.
      right; right; left. exists e0. split; [reflexivity|].
      right; left. rewrite b64decode_eq in D.
      exact (a2b_loop_raises_binascii encoded 0%nat 0 0%nat e0 D). }
  destruct (Nat.ltb_spec (length data) 64) as [Hlt|Hge].
  { rewrite (decrypt_password_short env K encoded data Henv HK E D Hlt) in H.
    apply Raise_inj in H. subst e.
    right; right; left. eexists. split; [reflexivity|]. right; right; left. reflexivity. }
  destruct (Utf8.encode K) as [kb|e0] eqn:EK.
  2:{ rewrite (decrypt_password_bad_key env K encoded data e0 Henv HK E D Hge EK) in H.
      apply Raise_inj in H. subst e.
      right; right; right. eexists. split; [reflexivity|]. right.
      exists e0. split; [reflexivity|]. exact (utf8_encode_raises K e0 EK). }
  rewrite (decrypt_password_decoded env K encoded data kb Henv HK E D Hge EK) in H.
  destruct (tag_verifies kb data).
  - unfold Utf8.decode in H. destruct (Utf8.decode_chars (opened_bytes kb data)).
    + discriminate H.
    + cbn in H. apply Raise_inj in H. subst e.
      right; right; left. eexists. split; [reflexivity|]. right; right; right. reflexivity.
  - apply Raise_inj in H. subst e.
    right; right; right. eexists. split; [reflexivity|]. left. reflexivity.
Qed.

Lemma short_text_is_malformed :
  decrypt_password short_text sample_key = Raise malformed_envelope_error.
Proof.
  apply (decrypt_password_short short_text sample_key
           (list_byte_of_string "QUJD") (list_byte_of_string "ABC"));
    [reflexivity | reflexivity | vm_compute; reflexivity | vm_compute; reflexivity
    | vm_compute; lia].
Qed.

Lemma decrypt_password_fails_only_in_these_ways_witness :
  malformed_envelope_error = empty_envelope_error \/
  malformed_envelope_error = empty_master_key_error \/
  (exists e0,
     malformed_envelope_error
     = Exn ValueError "Invalid encrypted password data" (Some e0) /\
     (exn_cls e0 = UnicodeEncodeError \/ exn_cls e0 = BinasciiError \/
      e0 = Exn ValueError "Invalid encrypted data format" None \/
      exn_cls e0 = UnicodeDecodeError)) \/
  (exists e0,
     malformed_envelope_error
     = Exn RuntimeError "Password decryption failed" (Some e0) /\
     (e0 = Exn InvalidTag "" None \/
      exists e1, e0 = key_derivation_error e1 /\ exn_cls e1 = UnicodeEncodeError)).
Proof.
  exact (decrypt_password_fails_only_in_these_ways short_text sample_key
           malformed_envelope_error short_text_is_malformed).
Defined.

(* ===================================================================== *)
(** * How [encrypt_password] fails *)
(* ===================================================================== *)

(** Property X14: [encrypt_password] fails in these ways only: with the
    [ValueError] of the empty plaintext, with the [ValueError] of the empty
    master key, and, both being non-empty, with
    [RuntimeError("Password encryption failed")] caused either by the
    [RuntimeError("Key derivation failed")] of a master key that cannot be
    encoded or by the [UnicodeEncodeError] of the plaintext. In particular
    it returns an envelope whenever both strings are non-empty and can be
    encoded. *)
Theorem encrypt_password_fails_only_in_these_ways
    (P K : str) (rng : entropy) (e : exn) :
  fst (encrypt_password P K rng) = Raise e ->
  (P = [] /\ e = empty_password_error) \/
  (P <> [] /\ K = [] /\ e = empty_master_key_error) \/
  (P <> [] /\ K <> [] /\
   exists e0, e = Exn RuntimeError "Password encryption failed" (Some e0) /\
     ((exists e1, Utf8.encode K = Raise e1 /\ e0 = key_derivation_error e1) \/
      (exists kb, Utf8.encode K = Ok kb /\ Utf8.encode P = Raise e0))).
Proof.
  intros H.
  destruct P as [|c P].
  { left. split; [reflexivity|]. symmetry. exact (Raise_inj _ _ H). }
  destruct K as [|k K].
  { right; left. split_and; [discriminate|reflexivity|].
    symmetry. exact (Raise_inj _ _ H). }
  right; right. split_and; [discriminate|discriminate|].
  destruct (Utf8.encode (k :: K)) as [kb|e1] eqn:EK.
  - destruct (Utf8.encode (c :: P)) as [pb|e0] eqn:EP.
    + rewrite (encrypt_password_ok (c :: P) (k :: K) pb kb rng eq_refl eq_refl EP EK) in H.
      cbn [fst] in H. discriminate H.
    + revert H. unfold encrypt_password. cbn [is_empty].
      destruct (token_bytes SALT_SIZE rng) as [salt rng1].
      destruct (token_bytes IV_SIZE rng1) as [iv rng2]. cbn [fst].
      rewrite (derive_key_from_master_ok (k :: K) kb salt eq_refl EK). cbn [bind].
      rewrite EP. cbn [bind except_Exception]. intros H. apply Raise_inj in H. subst e.
      exists e0. split; [reflexivity|]. right. exists kb. split; reflexivity.
  - revert H. unfold encrypt_password. cbn [is_empty].
    destruct (token_bytes SALT_SIZE rng) as [salt rng1].
    destruct (token_bytes IV_SIZE rng1) as [iv rng2]. cbn [fst].
    rewrite (derive_key_from_master_fails (k :: K) e1 salt eq_refl EK).
    cbn [bind except_Exception]. intros H. apply Raise_inj in H. subst e.
    eexists. split; [reflexivity|]. left. exists e1. split; reflexivity.
Qed.

Lemma encrypt_password_fails_only_in_these_ways_witness :
  (sample_plaintext = [] /\ empty_master_key_error = empty_password_error) \/
  (sample_plaintext <> [] /\ @nil N = [] /\
   empty_master_key_error = empty_master_key_error) \/
  (sample_plaintext <> [] /\ @nil N <> [] /\
   exists e0,
     empty_master_key_error
     = Exn RuntimeError "Password encryption failed" (Some e0) /\
     ((exists e1, Utf8.encode [] = Raise e1 /\ e0 = key_derivation_error e1) \/
      (exists kb, Utf8.encode [] = Ok kb /\ Utf8.encode sample_plaintext = Raise e0))).
Proof.
  apply (encrypt_password_fails_only_in_these_ways sample_plaintext [] zero_entropy
           empty_master_key_error).
  reflexivity.
Defined.

(* ===================================================================== *)
(** * [change_password_encryption], continued *)
(* ===================================================================== *)

(** Property X15: whenever [change_password_encryption] returns, the old
    text decrypted under the old master key to a non-empty plaintext, and
    the returned envelope decrypts under the new master key to that same
    plaintext. This holds for every old text that decrypts, not only for
    texts that [encrypt_password] wrote. *)
Theorem rotation_preserves_plaintext
    (env oldK newK : str) (rng : entropy) (env' : str) :
  fst (change_password_encryption env oldK newK rng) = Ok env' ->
  exists P, P <> [] /\ decrypt_password env oldK = Ok P /\
            decrypt_password env' newK = Ok P.
Proof.
  unfold change_password_encryption.
  destruct (decrypt_password env oldK) as [P|e] eqn:D; [|discriminate].
  destruct (encrypt_password P newK rng) as [r rng'] eqn:E. cbn [fst].
  destruct r as [env''|e]; [|discriminate].
  cbn [except_Exception]. intros H. apply Ok_inj in H. subst env''.
  assert (E' : fst (encrypt_password P newK rng) = Ok env') by (rewrite E; reflexivity).
  exists P. split_and.
  - destruct (encrypt_password_accepts P newK rng env' E') as (HP & _).
    intros ->. discriminate HP.
  - reflexivity.
  - exact (encrypt_then_decrypt P newK rng env' E').
Qed.

Lemma rotation_preserves_plaintext_witness :
  exists P, P <> [] /\ decrypt_password sample_envelope sample_key = Ok P /\
            decrypt_password sample_envelope_a key_a = Ok P.
Proof.
  apply (rotation_preserves_plaintext sample_envelope sample_key key_a zero_entropy
           sample_envelope_a).
  exact (proj1 (proj2 (rotation_gen sample_plaintext sample_key key_a
                         sample_plaintext_bytes sample_key_bytes key_a_bytes
                         zero_entropy zero_entropy eq_refl eq_refl eq_refl
                         sample_plaintext_encode sample_key_encode key_a_encode))).
Defined.

(* ===================================================================== *)
(** * The list of [dashboard] *)
(* ===================================================================== *)

Lemma dashboard_fold (K : str) (ps : list Password) (acc : list dashboard_entry) :
  fold_left
    (fun decrypted_passwords pwd =>
       match decrypt_password (encrypted_password pwd) K with
       | Ok decrypted_pwd => decrypted_passwords ++ [entry_of pwd decrypted_pwd]
       | Raise _ => decrypted_passwords
       end) ps acc
  = acc ++ flat_map (entries_of_row K) ps.
Proof.
  revert acc. induction ps as [|pwd ps IH]; intros acc; cbn [fold_left flat_map].
  - now rewrite app_nil_r.
  - rewrite IH. unfold entries_of_row at 2.
    destruct (decrypt_password (encrypted_password pwd) K).
    + now rewrite <- app_assoc.
    + reflexivity.
Qed.

Lemma dashboard_flat_map (ps : list Password) (K : str) :
  dashboard_passwords ps K = flat_map (entries_of_row K) ps.
Proof. unfold dashboard_passwords. now rewrite dashboard_fold. Qed.

Lemma dashboard_app (ps1 ps2 : list Password) (K : str) :
  dashboard_passwords (ps1 ++ ps2) K
  = dashboard_passwords ps1 K ++ dashboard_passwords ps2 K.
Proof. rewrite !dashboard_flat_map. apply flat_map_app. Qed.

(** Property X16: the list that [dashboard] builds holds, in the order of
    the rows, one entry for each row whose text passes
    [verify_encryption_integrity] under the user's key, and no other
    entry; it is never longer than the list of rows. *)
Theorem dashboard_lists_the_rows_that_pass_the_integrity_check
    (passwords : list Password) (K : str) :
  map entry_id (dashboard_passwords passwords K)
  = map password_id
      (filter (fun pwd => verify_encryption_integrity (encrypted_password pwd) K)
              passwords)
  /\ (length (dashboard_passwords passwords K) <= length passwords)%nat.
Proof.
  rewrite dashboard_flat_map.
  induction passwords as [|pwd ps [IH1 IH2]]; [split; [reflexivity|apply Nat.le_refl]|].
  cbn [flat_map filter]. rewrite map_app, length_app, IH1.
  set (n := length (flat_map (entries_of_row K) ps)) in *.
  unfold entries_of_row, verify_encryption_integrity.
  destruct (decrypt_password (encrypted_password pwd) K); cbn [map app length]; split.
  - reflexivity.
  - lia.
  - reflexivity.
  - lia.
Qed.

(** Property X17: an entry is in the list of [dashboard] exactly when it
    is made of a row of the user and of the plaintext that
    [decrypt_password] returns for the text of that row: the fields other
    than the password are those of the row, and no entry holds anything
    but a successfully decrypted password. *)
Theorem dashboard_entries_carry_the_decrypted_password
    (passwords : list Password) (K : str) (entry : dashboard_entry) :
  In entry (dashboard_passwords passwords K) <->
  exists pwd P, In pwd passwords /\
                decrypt_password (encrypted_password pwd) K = Ok P /\
                entry = entry_of pwd P.
Proof.
  rewrite dashboard_flat_map, in_flat_map. split.
  - intros (pwd & Hin & He). unfold entries_of_row in He.
    destruct (decrypt_password (encrypted_password pwd) K) as [P|e] eqn:D.
    + destruct He as [<-|[]]. exists pwd, P. split_and; [assumption|exact D|reflexivity].
    + destruct He.
  - intros (pwd & P & Hin & D & ->). exists pwd. split; [assumption|].
    unfold entries_of_row. rewrite D. left. reflexivity.
Qed.

(** Property X18: a row whose text does not decrypt is left out and does
    not disturb the others: the list is the list of the rows before it
    followed by the list of the rows after it. *)
Theorem dashboard_skips_a_row_that_does_not_decrypt
    (before after : list Password) (bad : Password) (K : str) (e : exn) :
  decrypt_password (encrypted_password bad) K = Raise e ->
  dashboard_passwords (before ++ bad :: after) K
  = dashboard_passwords before K ++ dashboard_passwords after K.
Proof.
  intros D. rewrite (dashboard_app before (bad :: after) K).
  change (bad :: after) with ([bad] ++ after). rewrite (dashboard_app [bad] after K).
  unfold dashboard_passwords at 2. cbn [fold_left]. rewrite D. reflexivity.
Qed.

Lemma dashboard_skips_a_row_that_does_not_decrypt_witness :
  dashboard_passwords ([sample_row] ++ corrupt_row :: [sample_row]) sample_key
  = dashboard_passwords [sample_row] sample_key
    ++ dashboard_passwords [sample_row] sample_key.
Proof.
  exact (dashboard_skips_a_row_that_does_not_decrypt [sample_row] [sample_row]
           corrupt_row sample_key malformed_envelope_error short_text_is_malformed).
Defined.

(** Property X19: if every row holds a text that [encrypt_password]
    returned for some plaintext under the user's key, as [add_password]
    and [edit_password] store it, then [dashboard] lists every row, in
    order, each with its plaintext. *)
Theorem dashboard_shows_every_password_stored_under_the_key
    (passwords : list Password) (plaintexts : list str) (K : str) :
  Forall2 (fun pwd P => exists rng,
             fst (encrypt_password P K rng) = Ok (encrypted_password pwd))
          passwords plaintexts ->
  dashboard_passwords passwords K
  = map (fun row => entry_of (fst row) (snd row)) (combine passwords plaintexts).
Proof.
  intros H. rewrite dashboard_flat_map.
  induction H as [|pwd P ps Ps [rng E] _ IH]; [reflexivity|].
  cbn [flat_map combine map fst snd]. rewrite IH.
  unfold entries_of_row at 1.
  rewrite (encrypt_then_decrypt P K rng (encrypted_password pwd) E). reflexivity.
Qed.

Lemma dashboard_shows_every_password_stored_under_the_key_witness :
  dashboard_passwords [sample_row] sample_key
  = map (fun row => entry_of (fst row) (snd row))
        (combine [sample_row] [sample_plaintext]).
Proof.
  apply (dashboard_shows_every_password_stored_under_the_key
           [sample_row] [sample_plaintext] sample_key).
  constructor; [|constructor].
  exists zero_entropy. exact sample_envelope_sealed.
Defined.

(** Property X20: for a user whose encryption key is the empty string,
    [dashboard] lists nothing, whatever the rows hold: each decryption
    raises the [ValueError] of a guard, and each row is skipped. *)
Theorem dashboard_is_empty_without_a_key (passwords : list Password) :
  dashboard_passwords passwords [] = [].
Proof.
  rewrite dashboard_flat_map. induction passwords as [|pwd ps IH]; [reflexivity|].
  cbn [flat_map]. rewrite IH. unfold entries_of_row, decrypt_password.
  destruct (is_empty (encrypted_password pwd)); reflexivity.
Qed.
